(** * Crash-game server (src/main.py): shallow embedding and properties

    The server keeps three SQLite tables ([users], [bets], [rounds]), offers
    three HTTP operations ([get_balance], [place_bet], [cashout]) and runs one
    background coroutine ([game_loop]) that creates rounds and moves them
    through their phases.

    Modelling choices.
    - The database is a record [DB] of the three tables.  [users] has a
      primary key, so it is a finite map from user id to balance; [bets] and
      [rounds] are lists of rows in insertion (rowid) order.
    - REAL columns and Python floats that hold numbers are exact rationals
      ([Q]); the builtin [round(x, n)] is decimal rounding, ties to even, on
      those rationals.  The rounding of binary64 arithmetic is not modelled,
      so nothing below rests on an identity between sums or differences that
      the code does not itself compute.  The two values a rational cannot
      stand for, a NaN amount and a NULL cell, are in module [Nullable],
      which embeds the endpoints over them and agrees with the tables of
      numbers wherever both apply ([lift_place_bet]).
    - Each request runs from start to end on its own: the interleaving of two
      requests inside [place_bet] (the balance is read on one connection and
      debited on another, with no lock) is not modelled.
    - [time.time()] and [random.uniform(1.5, 5.0)] are inputs: every operation
      that reads the clock takes [now], [create_new_round] takes the draw [u].
    - An uncaught Python exception is an [outcome] of its own ([Raise]), next
      to a returned JSON body ([Return]).
    - Name resolution follows Python: a function that assigns to [round]
      anywhere in its body has [round] as a local variable.  [place_bet]
      (line 112), [cashout] (line 136) and [game_loop] (line 184) all execute
      [round = get_current_round()], so inside them the name [round] denotes
      the fetched row, not the builtin.  [get_balance] and [create_new_round]
      never assign it and see the builtin.
    - [game_loop] is a coroutine that never returns; it is embedded as a step
      function on its program points, each step reading the clock once and
      reporting the messages it broadcasts and how long it sleeps. *)

From Stdlib Require Import ZArith QArith Qround Lia Lqa.
From stdpp Require Import gmap strings list fin_maps.

Local Open Scope string_scope.

(** ** Python values and exceptions *)

Inductive exn := TypeError.

Inductive outcome (A : Type) :=
  | Return (a : A)
  | Raise (e : exn).
Arguments Return {A} a.
Arguments Raise {A} e.

(** [int(x)]: truncation toward zero. *)
Definition py_int (x : Q) : Z := Z.quot (Qnum x) (Z.pos (Qden x)).

(** Nearest integer, ties to the even one. *)
Definition round_half_even (q : Q) : Z :=
  let f := Qfloor q in
  match (q - inject_Z f ?= 1 # 2)%Q with
  | Lt => f
  | Gt => (f + 1)%Z
  | Eq => if Z.even f then f else (f + 1)%Z
  end.

(** The builtin [round(x, ndigits)] for [ndigits >= 0]. *)
Definition py_round (x : Q) (ndigits : Z) : Q :=
  let scale := inject_Z (10 ^ ndigits) in
  Qred (inject_Z (round_half_even (x * scale)) / scale).

Definition Qlt_bool (x y : Q) : bool := negb (Qle_bool y x).

(** ** Tables *)

(** [rounds.status] is TEXT and only ever holds one of three words. *)
Inductive status := waiting | running | ended.

Definition status_eqb (a b : status) : bool :=
  match a, b with
  | waiting, waiting | running, running | ended, ended => true
  | _, _ => false
  end.

(** A row of [rounds]: (id, status, start_time, crash_point). *)
Record round_row := {
  r_id : Z;
  r_status : status;
  r_start_time : Q;
  r_crash_point : Q
}.

(** A row of [bets].  [cashed_out] is an INTEGER used as a flag (0 or 1). *)
Record bet_row := {
  b_user_id : string;
  b_amount : Q;
  b_round_id : Z;
  b_cashed_out : bool;
  b_coefficient : Q
}.

Record DB := {
  users : gmap string Q;
  bets : list bet_row;
  rounds : list round_row
}.

(** [init_db] on a fresh file: three empty tables. *)
Definition init_db : DB := {| users := ∅; bets := []; rounds := [] |}.

(** What the name [round] can denote at a call site. *)
Inductive pyobj :=
  | builtin_round
  | row_tuple (row : round_row).

(** The call [f(x, ndigits)].  A tuple is not callable. *)
Definition py_call (f : pyobj) (x : Q) (ndigits : Z) : outcome Q :=
  match f with
  | builtin_round => Return (py_round x ndigits)
  | row_tuple _ => Raise TypeError
  end.

(** ** Utils *)

Definition get_user_balance (user_id : string) (db : DB) : Q :=
  match users db !! user_id with
  | Some balance => balance
  | None => 0.0%Q
  end.

(** INSERT OR IGNORE followed by UPDATE: the row exists afterwards and holds
    [new_balance]. *)
Definition set_user_balance (user_id : string) (new_balance : Q) (db : DB) : DB :=
  {| users := <[user_id := new_balance]> (users db);
     bets := bets db;
     rounds := rounds db |}.

Definition add_balance (user_id : string) (amount : Q) (db : DB) : DB :=
  let bal := get_user_balance user_id db in
  set_user_balance user_id (bal + amount)%Q db.

Definition is_active (r : round_row) : bool :=
  match r_status r with
  | waiting | running => true
  | ended => false
  end.

(** ORDER BY id DESC LIMIT 1, as one pass that keeps the row of largest id. *)
Definition keep_latest (acc : option round_row) (r : round_row) : option round_row :=
  match acc with
  | None => Some r
  | Some a => if (r_id a <? r_id r)%Z then Some r else Some a
  end.

Definition get_current_round (db : DB) : option round_row :=
  fold_left keep_latest (List.filter is_active (rounds db)) None.

(** AUTOINCREMENT: one more than the largest id in use (rows are never
    deleted), 1 on an empty table. *)
Definition next_round_id (rs : list round_row) : Z :=
  (1 + fold_right Z.max 0 (map r_id rs))%Z.

(** [u] is the value of [random.uniform(1.5, 5.0)], [now] of [time.time()].
    [round] is the builtin here. *)
Definition create_new_round (now u : Q) (db : DB) : DB :=
  let crash_point := py_round u 2 in
  let start_time := (now + 5)%Q in
  {| users := users db;
     bets := bets db;
     rounds := rounds db ++
       [{| r_id := next_round_id (rounds db);
           r_status := waiting;
           r_start_time := start_time;
           r_crash_point := crash_point |}] |}.

Definition set_status (round_id : Z) (st : status) (r : round_row) : round_row :=
  if (r_id r =? round_id)%Z
  then {| r_id := r_id r; r_status := st;
          r_start_time := r_start_time r; r_crash_point := r_crash_point r |}
  else r.

Definition update_round_status (round_id : Z) (st : status) (db : DB) : DB :=
  {| users := users db;
     bets := bets db;
     rounds := map (set_status round_id st) (rounds db) |}.

(** ** API *)

(** The JSON bodies the three endpoints return. *)
Inductive response :=
  | resp_balance (balance : Q)   (* {"balance": b} *)
  | resp_error (msg : string)    (* {"error": msg} *)
  | resp_success                 (* {"success": True} *)
  | resp_win (win : Q).          (* {"success": True, "win": w} *)

Definition msg_no_active_round : string := "No active round".
Definition msg_round_started : string := "Раунд басталып кетті".
Definition msg_invalid_bet : string := "Жарамсыз ставка".
Definition msg_no_game : string := "Ойын жоқ".
Definition msg_too_early : string := "Кэшаутқа ерте".
Definition msg_no_bet : string := "Ставка жоқ немесе кэшаут жасалды".

(** [round] is the builtin here. *)
Definition get_balance (user_id : string) (db : DB) : outcome response * DB :=
  let bal := get_user_balance user_id db in
  (Return (resp_balance (py_round bal 2)), db).

Definition place_bet (user_id : string) (amount : Q) (db : DB)
  : outcome response * DB :=
  match get_current_round db with
  | None => (Return (resp_error msg_no_active_round), db)
  | Some round =>
    if negb (status_eqb (r_status round) waiting)
    then (Return (resp_error msg_round_started), db)
    else
      let user_balance := get_user_balance user_id db in
      if Qle_bool amount 0 || Qlt_bool user_balance amount
      then (Return (resp_error msg_invalid_bet), db)
      else
        (Return resp_success,
         {| users := alter (fun balance => balance - amount)%Q user_id (users db);
            bets := bets db ++
              [{| b_user_id := user_id; b_amount := amount;
                  b_round_id := r_id round;
                  b_cashed_out := false; b_coefficient := 1.0%Q |}];
            rounds := rounds db |})
  end.

(** WHERE user_id = ? AND round_id = ? *)
Definition bet_of (user_id : string) (round_id : Z) (b : bet_row) : bool :=
  String.eqb (b_user_id b) user_id && (b_round_id b =? round_id)%Z.

(** UPDATE bets SET cashed_out = 1, coefficient = ? WHERE ... *)
Definition mark_cashed (user_id : string) (round_id : Z) (coef : Q) (b : bet_row)
  : bet_row :=
  if bet_of user_id round_id b
  then {| b_user_id := b_user_id b; b_amount := b_amount b;
          b_round_id := b_round_id b;
          b_cashed_out := true; b_coefficient := coef |}
  else b.

(** Lines 144-146 and 158 call [round(..., 2)] where [round] is the row that
    line 136 stored in the local of that name. *)
Definition cashout (now : Q) (user_id : string) (db : DB)
  : outcome response * DB :=
  match get_current_round db with
  | None => (Return (resp_error msg_no_game), db)
  | Some round =>
    if negb (status_eqb (r_status round) running)
    then (Return (resp_error msg_too_early), db)
    else
      let flight_duration := (now - r_start_time round)%Q in
      match py_call (row_tuple round) (1.0 + flight_duration * 0.1)%Q 2 with
      | Raise e => (Raise e, db)
      | Return current_coef =>
        match List.find (bet_of user_id (r_id round)) (bets db) with
        | None => (Return (resp_error msg_no_bet), db)
        | Some row =>
          if b_cashed_out row
          then (Return (resp_error msg_no_bet), db)
          else
            let amount := b_amount row in
            match py_call (row_tuple round) (amount * current_coef)%Q 2 with
            | Raise e => (Raise e, db)
            | Return win =>
              (Return (resp_win win),
               {| users := alter (fun balance => balance + win)%Q user_id (users db);
                  bets := map (mark_cashed user_id (r_id round) current_coef) (bets db);
                  rounds := rounds db |})
            end
        end
      end
  end.

(** One request to the API. *)
Inductive request :=
  | req_get_balance (user_id : string)
  | req_place_bet (user_id : string) (amount : Q)
  | req_cashout (now : Q) (user_id : string).

Definition handle (q : request) (db : DB) : outcome response * DB :=
  match q with
  | req_get_balance user_id => get_balance user_id db
  | req_place_bet user_id amount => place_bet user_id amount db
  | req_cashout now user_id => cashout now user_id db
  end.

Definition handle_all (qs : list request) (db : DB) : DB :=
  fold_left (fun d q => snd (handle q d)) qs db.

(** ** Game loop *)

(** The snapshots [broadcast] is called with. *)
Inductive message :=
  | msg_waiting (countdown : Z)
  | msg_running (coefficient : Q)
  | msg_ended (final_coef : Q).

(** Program points of [game_loop] with the locals live there: the top of the
    outer loop, the waiting loop, the flight loop, and the coroutine finished
    by an exception ([locals] are the flight locals at that moment). *)
Inductive loop_pc :=
  | at_create
  | at_wait (round : round_row) (start_time : Q)
  | at_flight (round : round_row) (start_time coef : Q)
  | finished (e : exn) (round : round_row) (start_time coef : Q).

Record step_result := {
  next_pc : loop_pc;
  next_db : DB;
  sent : list message;
  slept : Q
}.

(** One stretch of [game_loop] between two clock readings.  [round_id] and
    [crash_point] are read off [round]: they are unpacked once at line 188
    and never assigned again.  In the flight loop [round(coef, 2)] is
    evaluated while building the message, before [broadcast] is entered. *)
Definition game_loop_step (now u : Q) (pc : loop_pc) (db : DB) : step_result :=
  match pc with
  | at_create =>
    let db1 := create_new_round now u db in
    match get_current_round db1 with
    | None => {| next_pc := at_create; next_db := db1; sent := []; slept := 1 |}
    | Some round =>
      let start_time := r_start_time round in
      {| next_pc := at_wait round start_time; next_db := db1;
         sent := [msg_waiting (py_int (start_time - now))]; slept := 0 |}
    end
  | at_wait round start_time =>
    if Qlt_bool now start_time
    then {| next_pc := at_wait round start_time; next_db := db;
            sent := [msg_waiting (py_int (start_time - now))]; slept := 1 |}
    else {| next_pc := at_flight round now 1.0%Q;
            next_db := update_round_status (r_id round) running db;
            sent := []; slept := 0 |}
  | at_flight round start_time coef =>
    if Qlt_bool coef (r_crash_point round)
    then
      let coef := (coef + 0.01)%Q in
      match py_call (row_tuple round) coef 2 with
      | Raise e => {| next_pc := finished e round start_time coef; next_db := db;
                      sent := []; slept := 0 |}
      | Return shown =>
        {| next_pc := at_flight round start_time coef; next_db := db;
           sent := [msg_running shown]; slept := 0.05%Q |}
      end
    else
      let db1 := update_round_status (r_id round) ended db in
      match py_call (row_tuple round) coef 2 with
      | Raise e => {| next_pc := finished e round start_time coef; next_db := db1;
                      sent := []; slept := 0 |}
      | Return shown =>
        {| next_pc := at_create; next_db := db1;
           sent := [msg_ended shown]; slept := 3 |}
      end
  | finished _ _ _ _ =>
    {| next_pc := pc; next_db := db; sent := []; slept := 0 |}
  end.

(** Running the loop over a list of clock readings and random draws, from
    [startup_event], which enters [game_loop] at its top. *)
Fixpoint game_loop_run (inputs : list (Q * Q)) (pc : loop_pc) (db : DB)
  : loop_pc * DB :=
  match inputs with
  | [] => (pc, db)
  | (now, u) :: rest =>
    let s := game_loop_step now u pc db in
    game_loop_run rest (next_pc s) (next_db s)
  end.

(** ** Notions used to state the properties *)

(** The database [place_bet] leaves behind when it accepts a bet. *)
Definition bet_placed (user_id : string) (amount : Q) (round : round_row) (db : DB)
  : DB :=
  {| users := alter (fun balance => balance - amount)%Q user_id (users db);
     bets := bets db ++
       [{| b_user_id := user_id; b_amount := amount; b_round_id := r_id round;
           b_cashed_out := false; b_coefficient := 1.0%Q |}];
     rounds := rounds db |}.

(** Number of bet rows of a user in a round. *)
Definition bet_count (user_id : string) (round_id : Z) (db : DB) : nat :=
  length (List.filter (bet_of user_id round_id) (bets db)).

(** The row [create_new_round] inserts. *)
Definition new_round (now u : Q) (db : DB) : round_row :=
  {| r_id := next_round_id (rounds db);
     r_status := waiting;
     r_start_time := (now + 5)%Q;
     r_crash_point := py_round u 2 |}.

(** Every row of [users] holds a balance of at least zero. *)
Definition balances_nonneg (db : DB) : Prop :=
  forall user_id balance, users db !! user_id = Some balance -> (0 <= balance)%Q.

(** Program points after the round of this run was created, with what is
    known of the locals there. *)
Definition started (pc : loop_pc) : Prop :=
  match pc with
  | at_create => False
  | at_wait round _ => (1.0 < r_crash_point round)%Q
  | at_flight round _ coef => (coef < r_crash_point round)%Q
  | finished _ _ _ _ => True
  end.

(** The pricing formula as section 4.1 of the specification words it:
    [coefficient(t) = 1.0 + (t - actual_start) * growth_rate]. *)
Definition spec_coefficient (actual_start growth_rate t : Q) : Q :=
  (1.0 + (t - actual_start) * growth_rate)%Q.

(** The win section 4.2 of the specification promises: [amount * coefficient]
    rounded to two decimals. *)
Definition spec_win (amount coefficient : Q) : Q :=
  py_round (amount * coefficient) 2.

(** Kinds of answers. *)
Definition answers_win (o : outcome response) : bool :=
  match o with
  | Return (resp_win _) => true
  | _ => false
  end.

Definition answers_error (msg : string) (o : outcome response) : bool :=
  match o with
  | Return (resp_error m) => String.eqb m msg
  | _ => false
  end.

(** The phase order of a round: a status stays or moves one step forward. *)
Definition advances (a b : status) : Prop :=
  a = b \/ (a = waiting /\ b = running) \/ (a = running /\ b = ended).

(** A row and what a write to the rounds table may have made of it. *)
Definition row_advanced (r r' : round_row) : Prop :=
  r_id r' = r_id r /\ r_start_time r' = r_start_time r /\
  r_crash_point r' = r_crash_point r /\ advances (r_status r) (r_status r').

(** What the loop knows about the row it works on: while it waits the rows
    of that id are waiting, while it flies they are running. *)
Definition tracks (pc : loop_pc) (db : DB) : Prop :=
  match pc with
  | at_create => True
  | at_wait round _ =>
    forall r, In r (rounds db) -> r_id r = r_id round -> r_status r = waiting
  | at_flight round _ _ =>
    forall r, In r (rounds db) -> r_id r = r_id round -> r_status r = running
  | finished _ _ _ _ => True
  end.

(** The same tables with other crash points stored in [rounds]. *)
Definition set_crash_point (f : round_row -> Q) (r : round_row) : round_row :=
  {| r_id := r_id r; r_status := r_status r;
     r_start_time := r_start_time r; r_crash_point := f r |}.

Definition with_crash_points (f : round_row -> Q) (db : DB) : DB :=
  {| users := users db; bets := bets db;
     rounds := map (set_crash_point f) (rounds db) |}.

(** ** Further notions: phases, traces *)

Definition status_rank (s : status) : nat :=
  match s with
  | waiting => 0
  | running => 1
  | ended => 2
  end.

Definition is_countdown (m : message) : bool :=
  match m with
  | msg_waiting _ => true
  | _ => false
  end.

(** Everything a run of [game_loop] hands to [broadcast], in order. *)
Fixpoint game_loop_sent (inputs : list (Q * Q)) (pc : loop_pc) (db : DB)
  : list message :=
  match inputs with
  | [] => []
  | (now, u) :: rest =>
    let s := game_loop_step now u pc db in
    (sent s ++ game_loop_sent rest (next_pc s) (next_db s))%list
  end.

(** The server as a whole: the loop and the endpoints share the database,
    and each event is either one stretch of the loop or one request. *)
Inductive event :=
  | ev_loop (now u : Q)
  | ev_request (q : request).

Definition server_step (st : loop_pc * DB) (e : event) : loop_pc * DB :=
  match e with
  | ev_loop now u =>
    let s := game_loop_step now u (fst st) (snd st) in
    (next_pc s, next_db s)
  | ev_request q => (fst st, snd (handle q (snd st)))
  end.

Definition server_run (es : list event) (st : loop_pc * DB) : loop_pc * DB :=
  fold_left server_step es st.

(** A loop event whose draw is one [random.uniform(1.5, 5.0)] can return. *)
Definition draw_in_range (e : event) : Prop :=
  match e with
  | ev_loop _ u => (1.5 <= u)%Q /\ (u <= 5.0)%Q
  | ev_request _ => True
  end.

(** ** Subscribers

    [connected_clients] maps each open WebSocket (a number stands for the
    object) to a string.  [broadcast] is taken as one uninterrupted pass: no
    other coroutine registers a client while it awaits a send. *)

(** Lines 172-173: accept, then [connected_clients[ws] = ""]. *)
Definition websocket_accept (ws : nat) (clients : gmap nat string)
  : gmap nat string :=
  <[ws := ""]> clients.

(** [del connected_clients[ws]]; [None] stands for the KeyError of a missing
    key. *)
Definition py_del (ws : nat) (clients : gmap nat string)
  : option (gmap nat string) :=
  match clients !! ws with
  | Some _ => Some (delete ws clients)
  | None => None
  end.

(** [send ws message] tells whether [ws.send_json(message)] returns; any
    exception puts [ws] on [to_remove].  The result is the list of clients
    served and the registry after the second loop. *)
Definition broadcast (send : nat -> message -> bool) (message : message)
    (clients : gmap nat string) : option (list nat * gmap nat string) :=
  let keys := (map_to_list clients).*1 in
  let to_remove := List.filter (fun ws => negb (send ws message)) keys in
  let served := List.filter (fun ws => send ws message) keys in
  match
    fold_left
      (fun acc ws => match acc with Some m => py_del ws m | None => None end)
      to_remove (Some clients)
  with
  | Some clients' => Some (served, clients')
  | None => None
  end.

(** ** The scenario of section 8

    A user with balance 100; [game_loop] starts when the clock reads 0 and
    draws 3.0; the user bets 20 while the round waits; the waiting loop ends
    when the clock reads 5. *)

Definition db_funded : DB := add_balance "alice" 100 init_db.

Definition step_created : step_result := game_loop_step 0 3.0 at_create db_funded.
Definition db_waiting : DB := next_db step_created.

Definition db_bet : DB := snd (place_bet "alice" 20 db_waiting).

Definition step_started : step_result :=
  game_loop_step 5 3.0 (next_pc step_created) db_bet.
Definition db_running : DB := next_db step_started.

(** The row the loop holds in its local [round] (fetched while waiting), and
    the row of the table once the round runs. *)
Definition round_fetched : round_row :=
  {| r_id := 1; r_status := waiting; r_start_time := 5; r_crash_point := 3 |}.
Definition round_running : round_row :=
  {| r_id := 1; r_status := running; r_start_time := 5; r_crash_point := 3 |}.

(** A table whose only round has ended. *)
Definition db_ended : DB :=
  update_round_status 1 ended db_running.

(** The running table of the scenario as it would look had a cashout at
    coefficient 2.0 been recorded for the user. *)
Definition db_cashed : DB :=
  {| users := users db_running;
     bets := map (mark_cashed "alice" 1 2.0%Q) (bets db_running);
     rounds := rounds db_running |}.

(** Clock readings (with the draw) of an undisturbed run: the round is
    created at 0, the waiting loop polls every second until 5, the flight
    loop would tick every 0.05. *)
Definition clock_of_run : list (Q * Q) :=
  [(0, 3.0); (0, 3.0); (1, 3.0); (2, 3.0); (3, 3.0); (4, 3.0); (5, 3.0);
   (5, 3.0); (5.05, 3.0); (5.1, 3.0); (60, 3.0)]%Q.

(** The process started a second time at clock 100 on the table the first
    run left behind: round 1 is still stored as running, round 2 is new. *)
Definition db_restarted : DB := create_new_round 100 2.0 db_running.

(** Three subscribers, the second of which has gone away: every send to it
    fails. *)
Definition clients_three : gmap nat string :=
  websocket_accept 3 (websocket_accept 2 (websocket_accept 1 ∅)).

Definition send_but_2 (ws : nat) (m : message) : bool := negb (ws =? 2)%nat.

(** ** The same endpoints with NaN and NULL

    The tables above hold numbers only.  A request can also carry the float
    NaN (or an infinity) as its amount, sqlite3 binds NaN as NULL, and SQL
    arithmetic on NULL gives NULL, so a REAL cell can come to hold NULL, which
    Python reads back as [None].  This module embeds the three endpoints once
    more over tables whose REAL cells are a number or NULL and with the
    amount as a float.  Arithmetic on numbers is the exact one used above. *)

Module Nullable.

(** The value of [bet.amount]. *)
Inductive pyfloat :=
  | finite (q : Q)
  | pos_inf
  | neg_inf
  | nan.

(** [x <= 0]: every comparison with NaN is False. *)
Definition le_zero (x : pyfloat) : bool :=
  match x with
  | finite q => Qle_bool q 0
  | neg_inf => true
  | pos_inf | nan => false
  end.

(** [x > b] for a number [b]. *)
Definition gt (x : pyfloat) (b : Q) : bool :=
  match x with
  | finite q => Qlt_bool b q
  | pos_inf => true
  | neg_inf | nan => false
  end.

(** The cell a float parameter is stored as: NaN becomes NULL.  An infinite
    amount never gets as far as a write (see [place_bet_infinite]), so its
    image here is never used. *)
Definition sql_bind (x : pyfloat) : option Q :=
  match x with
  | finite q => Some q
  | pos_inf | neg_inf | nan => None
  end.

(** [balance - ?] and [balance + ?] in SQL: NULL if either side is NULL. *)
Definition sql_sub (balance param : option Q) : option Q :=
  match balance, param with
  | Some b, Some x => Some (b - x)%Q
  | _, _ => None
  end.

Definition sql_add (balance param : option Q) : option Q :=
  match balance, param with
  | Some b, Some x => Some (b + x)%Q
  | _, _ => None
  end.

Record bet_row := {
  b_user_id : string;
  b_amount : option Q;
  b_round_id : Z;
  b_cashed_out : bool;
  b_coefficient : Q
}.

Record DB := {
  users : gmap string (option Q);
  bets : list bet_row;
  rounds : list round_row
}.

(** [row[0] if row else 0.0]; the result [None] is Python's [None], read
    from a NULL cell. *)
Definition get_user_balance (user_id : string) (db : DB) : option Q :=
  match users db !! user_id with
  | Some cell => cell
  | None => Some 0.0%Q
  end.

Definition get_current_round (db : DB) : option round_row :=
  fold_left keep_latest (List.filter is_active (rounds db)) None.

(** [round(None, 2)] raises TypeError. *)
Definition get_balance (user_id : string) (db : DB) : outcome response * DB :=
  match get_user_balance user_id db with
  | Some bal => (Return (resp_balance (py_round bal 2)), db)
  | None => (Raise TypeError, db)
  end.

(** Line 121 is [bet.amount <= 0 or bet.amount > user_balance]: the second
    comparison is evaluated only when the first is False, and comparing a
    float with [None] raises TypeError. *)
Definition place_bet (user_id : string) (amount : pyfloat) (db : DB)
  : outcome response * DB :=
  match get_current_round db with
  | None => (Return (resp_error msg_no_active_round), db)
  | Some round =>
    if negb (status_eqb (r_status round) waiting)
    then (Return (resp_error msg_round_started), db)
    else
      let user_balance := get_user_balance user_id db in
      if le_zero amount
      then (Return (resp_error msg_invalid_bet), db)
      else
        match user_balance with
        | None => (Raise TypeError, db)
        | Some bal =>
          if gt amount bal
          then (Return (resp_error msg_invalid_bet), db)
          else
            (Return resp_success,
             {| users :=
                  alter (fun balance => sql_sub balance (sql_bind amount))
                        user_id (users db);
                bets := bets db ++
                  [{| b_user_id := user_id; b_amount := sql_bind amount;
                      b_round_id := r_id round;
                      b_cashed_out := false; b_coefficient := 1.0%Q |}];
                rounds := rounds db |})
        end
  end.

Definition bet_of (user_id : string) (round_id : Z) (b : bet_row) : bool :=
  String.eqb (b_user_id b) user_id && (b_round_id b =? round_id)%Z.

Definition mark_cashed (user_id : string) (round_id : Z) (coef : Q) (b : bet_row)
  : bet_row :=
  if bet_of user_id round_id b
  then {| b_user_id := b_user_id b; b_amount := b_amount b;
          b_round_id := b_round_id b;
          b_cashed_out := true; b_coefficient := coef |}
  else b.

(** As above; past line 146, [amount * current_coef] with [amount] read
    from a NULL cell raises TypeError as well. *)
Definition cashout (now : Q) (user_id : string) (db : DB)
  : outcome response * DB :=
  match get_current_round db with
  | None => (Return (resp_error msg_no_game), db)
  | Some round =>
    if negb (status_eqb (r_status round) running)
    then (Return (resp_error msg_too_early), db)
    else
      let flight_duration := (now - r_start_time round)%Q in
      match py_call (row_tuple round) (1.0 + flight_duration * 0.1)%Q 2 with
      | Raise e => (Raise e, db)
      | Return current_coef =>
        match List.find (bet_of user_id (r_id round)) (bets db) with
        | None => (Return (resp_error msg_no_bet), db)
        | Some row =>
          if b_cashed_out row
          then (Return (resp_error msg_no_bet), db)
          else
            match b_amount row with
            | None => (Raise TypeError, db)
            | Some amount =>
              match py_call (row_tuple round) (amount * current_coef)%Q 2 with
              | Raise e => (Raise e, db)
              | Return win =>
                (Return (resp_win win),
                 {| users :=
                      alter (fun balance => sql_add balance (Some win))
                            user_id (users db);
                    bets := map (mark_cashed user_id (r_id round) current_coef)
                                (bets db);
                    rounds := rounds db |})
              end
            end
        end
      end
  end.

Inductive request :=
  | req_get_balance (user_id : string)
  | req_place_bet (user_id : string) (amount : pyfloat)
  | req_cashout (now : Q) (user_id : string).

Definition handle (q : request) (db : DB) : outcome response * DB :=
  match q with
  | req_get_balance user_id => get_balance user_id db
  | req_place_bet user_id amount => place_bet user_id amount db
  | req_cashout now user_id => cashout now user_id db
  end.

Definition handle_all (qs : list request) (db : DB) : DB :=
  fold_left (fun d q => snd (handle q d)) qs db.

(** A bet row as [place_bet] writes it: not cashed out, and its amount is a
    positive number or NULL. *)
Definition fresh_bet (round : round_row) (b : bet_row) : Prop :=
  b_cashed_out b = false /\ b_round_id b = r_id round /\
  (b_amount b = None \/ exists q, b_amount b = Some q /\ (0 < q)%Q).

End Nullable.

(** A table of numbers, read as a table without NULL. *)
Definition lift_bet (b : bet_row) : Nullable.bet_row :=
  {| Nullable.b_user_id := b_user_id b;
     Nullable.b_amount := Some (b_amount b);
     Nullable.b_round_id := b_round_id b;
     Nullable.b_cashed_out := b_cashed_out b;
     Nullable.b_coefficient := b_coefficient b |}.

Definition lift (db : DB) : Nullable.DB :=
  {| Nullable.users := Some <$> users db;
     Nullable.bets := map lift_bet (bets db);
     Nullable.rounds := rounds db |}.

(** The scenario with a stake of NaN: the table while round 1 waits, and
    the table after [place_bet] was called for alice with amount NaN. *)
Definition db_waiting_nan : Nullable.DB :=
  snd (Nullable.place_bet "alice" Nullable.nan (lift db_waiting)).

(** * Properties *)

(** ** Comparisons *)

Lemma Qlt_bool_iff (x y : Q) : Qlt_bool x y = true <-> (x < y)%Q.
Proof.
  unfold Qlt_bool. rewrite negb_true_iff. split.
  - intros H. apply Qnot_le_lt. intros Hle.
    apply Qle_bool_iff in Hle. congruence.
  - intros H. destruct (Qle_bool y x) eqn:E; [| reflexivity].
    apply Qle_bool_iff in E. exfalso. exact (Qlt_not_le _ _ H E).
Qed.

Lemma Qlt_bool_false (x y : Q) : Qlt_bool x y = false <-> (y <= x)%Q.
Proof.
  unfold Qlt_bool. rewrite negb_false_iff. apply Qle_bool_iff.
Qed.

Lemma Qle_bool_false (x y : Q) : Qle_bool x y = false <-> (y < x)%Q.
Proof.
  rewrite <- Qlt_bool_iff. unfold Qlt_bool. now rewrite negb_true_iff.
Qed.

(** ** The account table *)

(** A user whose balance reads as positive has a row in [users]. *)
Lemma positive_balance_has_row (user_id : string) (db : DB) :
  (0 < get_user_balance user_id db)%Q ->
  users db !! user_id = Some (get_user_balance user_id db).
Proof.
  unfold get_user_balance. destruct (users db !! user_id); [reflexivity |].
  intros H. exfalso. revert H. apply Qle_not_lt. discriminate.
Qed.

(** ** place_bet *)

Lemma place_bet_accepts (user_id : string) (amount : Q) (db : DB) (round : round_row) :
  get_current_round db = Some round ->
  r_status round = waiting ->
  (0 < amount)%Q ->
  (amount <= get_user_balance user_id db)%Q ->
  place_bet user_id amount db = (Return resp_success, bet_placed user_id amount round db).
Proof.
  intros Hcur Hst Hpos Hle. unfold place_bet. rewrite Hcur, Hst. simpl.
  apply Qle_bool_false in Hpos. apply Qlt_bool_false in Hle.
  rewrite Hpos, Hle. reflexivity.
Qed.

(** Every error answer of [place_bet] leaves the database as it was. *)
Lemma place_bet_error_keeps_db (user_id : string) (amount : Q) (db : DB) (msg : string) :
  fst (place_bet user_id amount db) = Return (resp_error msg) ->
  snd (place_bet user_id amount db) = db.
Proof.
  unfold place_bet. destruct (get_current_round db) as [round |]; [| reflexivity].
  destruct (negb _); [reflexivity |].
  destruct (_ || _); [reflexivity | discriminate].
Qed.

(** [place_bet] answers with success only under the conditions above. *)
Lemma place_bet_success_inv (user_id : string) (amount : Q) (db : DB) :
  fst (place_bet user_id amount db) = Return resp_success ->
  exists round,
    get_current_round db = Some round /\ r_status round = waiting /\
    (0 < amount)%Q /\ (amount <= get_user_balance user_id db)%Q.
Proof.
  unfold place_bet. destruct (get_current_round db) as [round |]; [| discriminate].
  destruct (r_status round) eqn:Hst; simpl; try discriminate.
  destruct (Qle_bool amount 0) eqn:E1; simpl; [discriminate |].
  destruct (Qlt_bool (get_user_balance user_id db) amount) eqn:E2; [discriminate |].
  intros _. exists round. rewrite Hst.
  apply Qle_bool_false in E1. apply Qlt_bool_false in E2. auto.
Qed.

Lemma bet_placed_balance (user_id : string) (amount : Q) (round : round_row) (db : DB) :
  (0 < amount)%Q ->
  (amount <= get_user_balance user_id db)%Q ->
  get_user_balance user_id (bet_placed user_id amount round db)
  = (get_user_balance user_id db - amount)%Q.
Proof.
  intros Hpos Hle.
  assert (Hrow := positive_balance_has_row user_id db (Qlt_le_trans _ _ _ Hpos Hle)).
  unfold get_user_balance at 1. simpl.
  rewrite lookup_alter_eq, Hrow. reflexivity.
Qed.

Lemma bet_placed_other_balance (user_id other : string) (amount : Q)
    (round : round_row) (db : DB) :
  user_id <> other ->
  get_user_balance other (bet_placed user_id amount round db)
  = get_user_balance other db.
Proof.
  intros Hne. unfold get_user_balance. simpl.
  now rewrite lookup_alter_ne.
Qed.

Lemma bet_of_self (user_id : string) (round_id : Z) (amount coef : Q) (c : bool) :
  bet_of user_id round_id
    {| b_user_id := user_id; b_amount := amount; b_round_id := round_id;
       b_cashed_out := c; b_coefficient := coef |} = true.
Proof.
  unfold bet_of. simpl. now rewrite String.eqb_refl, Z.eqb_refl.
Qed.

Lemma bet_placed_count (user_id : string) (amount : Q) (round : round_row) (db : DB) :
  bet_count user_id (r_id round) (bet_placed user_id amount round db)
  = S (bet_count user_id (r_id round) db).
Proof.
  unfold bet_count. simpl. rewrite List.filter_app, length_app. simpl.
  rewrite bet_of_self. simpl. lia.
Qed.

(** ** The current round *)

Lemma keep_latest_fold_in (rs : list round_row) (acc : option round_row) (r : round_row) :
  fold_left keep_latest rs acc = Some r -> acc = Some r \/ In r rs.
Proof.
  revert acc. induction rs as [| x rs IH]; intros acc H; simpl in *.
  - now left.
  - apply IH in H as [H | H]; [| now right; right].
    destruct acc as [a |]; simpl in H.
    + destruct (r_id a <? r_id x)%Z; inversion H; subst; auto.
    + inversion H; subst. right. now left.
Qed.

Lemma get_current_round_in (db : DB) (r : round_row) :
  get_current_round db = Some r -> In r (rounds db) /\ is_active r = true.
Proof.
  unfold get_current_round. intros H.
  apply keep_latest_fold_in in H as [H | H]; [discriminate |].
  now apply List.filter_In in H.
Qed.

Lemma get_current_round_not_ended (db : DB) (r : round_row) :
  get_current_round db = Some r -> r_status r <> ended.
Proof.
  intros H. apply get_current_round_in in H as [_ H].
  unfold is_active in H. destruct (r_status r); congruence.
Qed.

Lemma all_ended_no_current_round (db : DB) :
  (forall r, In r (rounds db) -> r_status r = ended) ->
  get_current_round db = None.
Proof.
  intros H. destruct (get_current_round db) as [r |] eqn:E; [| reflexivity].
  exfalso. apply (get_current_round_not_ended _ _ E).
  apply H. now apply get_current_round_in.
Qed.

Lemma next_round_id_above (rs : list round_row) (r : round_row) :
  In r rs -> (r_id r < next_round_id rs)%Z.
Proof.
  unfold next_round_id. induction rs as [| x rs IH]; simpl; [tauto |].
  intros [-> | H]; [lia |]. specialize (IH H). lia.
Qed.

(** Right after [create_new_round], the current round is the new row. *)
Lemma get_current_round_create (now u : Q) (db : DB) :
  get_current_round (create_new_round now u db) = Some (new_round now u db).
Proof.
  unfold get_current_round, create_new_round. simpl.
  rewrite List.filter_app, fold_left_app. simpl.
  fold (new_round now u db).
  destruct (fold_left keep_latest (List.filter is_active (rounds db)) None)
    as [a |] eqn:E; simpl; [| reflexivity].
  apply keep_latest_fold_in in E as [E | E]; [discriminate |].
  apply List.filter_In in E as [E _]. apply next_round_id_above in E.
  apply Z.ltb_lt in E. now rewrite E.
Qed.

(** ** cashout *)

(** On a running round [cashout] reaches line 146, where calling the row
    raises; nothing has been written by then. *)
Lemma cashout_running_raises (now : Q) (user_id : string) (db : DB) (round : round_row) :
  get_current_round db = Some round ->
  r_status round = running ->
  cashout now user_id db = (Raise TypeError, db).
Proof.
  intros Hcur Hst. unfold cashout. now rewrite Hcur, Hst.
Qed.

(** The three ways [cashout] can end. *)
Lemma cashout_cases (now : Q) (user_id : string) (db : DB) :
  cashout now user_id db = (Return (resp_error msg_no_game), db) \/
  cashout now user_id db = (Return (resp_error msg_too_early), db) \/
  cashout now user_id db = (Raise TypeError, db).
Proof.
  unfold cashout. destruct (get_current_round db) as [round |]; [| now left].
  destruct (negb _); [right; now left | right; now right].
Qed.

(** Settle a goal about [cashout now user_id db] by its three outcomes. *)
Ltac by_cashout_cases now user_id db :=
  let H := fresh "H" in
  destruct (cashout_cases now user_id db) as [H | [H | H]]; rewrite H; reflexivity.

Lemma cashout_keeps_db (now : Q) (user_id : string) (db : DB) :
  snd (cashout now user_id db) = db.
Proof. by_cashout_cases now user_id db. Qed.

(** [cashout] never reads the crash point: storing other crash points in the
    rounds table does not change its answer. *)
Lemma keep_latest_crash_points (f : round_row -> Q) (rs : list round_row)
    (acc : option round_row) :
  fold_left keep_latest (List.filter is_active (map (set_crash_point f) rs))
    (option_map (set_crash_point f) acc)
  = option_map (set_crash_point f)
      (fold_left keep_latest (List.filter is_active rs) acc).
Proof.
  revert acc. induction rs as [| x rs IH]; intros acc; simpl; [reflexivity |].
  change (is_active (set_crash_point f x)) with (is_active x).
  destruct (is_active x); simpl; [| apply IH].
  rewrite <- IH. f_equal.
  destruct acc as [a |]; simpl; [| reflexivity].
  now destruct (r_id a <? r_id x)%Z.
Qed.

Lemma get_current_round_crash_points (f : round_row -> Q) (db : DB) :
  get_current_round (with_crash_points f db)
  = option_map (set_crash_point f) (get_current_round db).
Proof.
  unfold get_current_round. simpl.
  apply (keep_latest_crash_points f (rounds db) None).
Qed.

Lemma cashout_ignores_crash_point (f : round_row -> Q) (now : Q) (user_id : string)
    (db : DB) :
  fst (cashout now user_id (with_crash_points f db)) = fst (cashout now user_id db).
Proof.
  unfold cashout. rewrite get_current_round_crash_points.
  destruct (get_current_round db) as [round |]; simpl; [| reflexivity].
  now destruct (r_status round).
Qed.

(** ** Requests and the tables they touch *)

Lemma place_bet_rounds (user_id : string) (amount : Q) (db : DB) :
  rounds (snd (place_bet user_id amount db)) = rounds db.
Proof.
  unfold place_bet. destruct (get_current_round db); [| reflexivity].
  destruct (negb _); [reflexivity |]. now destruct (_ || _).
Qed.

Lemma handle_rounds (q : request) (db : DB) :
  rounds (snd (handle q db)) = rounds db.
Proof.
  destruct q; simpl.
  - reflexivity.
  - apply place_bet_rounds.
  - now rewrite cashout_keeps_db.
Qed.

(** With a number as the stake and no other request in between, the debit
    of [place_bet] keeps every balance at or above zero. *)
Lemma place_bet_nonneg (user_id : string) (amount : Q) (db : DB) :
  balances_nonneg db -> balances_nonneg (snd (place_bet user_id amount db)).
Proof.
  intros Hdb. unfold place_bet.
  destruct (get_current_round db) as [round |]; [| exact Hdb].
  destruct (negb _); [exact Hdb |].
  destruct (Qle_bool amount 0 || Qlt_bool (get_user_balance user_id db) amount)
    eqn:E; [exact Hdb |].
  apply orb_false_iff in E as [_ Hle]. apply Qlt_bool_false in Hle.
  intros other balance. simpl. rewrite lookup_alter.
  destruct (decide (user_id = other)) as [-> | Hne]; [| apply Hdb].
  unfold get_user_balance in Hle.
  destruct (users db !! other) as [b |]; simpl; [| discriminate].
  intros [= <-]. unfold Qminus. now rewrite <- Qle_minus_iff.
Qed.

Lemma handle_all_nonneg (qs : list request) (db : DB) :
  balances_nonneg db -> balances_nonneg (handle_all qs db).
Proof.
  unfold handle_all. revert db. induction qs as [| q qs IH]; intros db Hdb; simpl.
  - exact Hdb.
  - apply IH. destruct q as [user_id | user_id amount | now user_id]; simpl.
    + exact Hdb.
    + now apply place_bet_nonneg.
    + now rewrite cashout_keeps_db.
Qed.

Lemma handle_all_rounds (qs : list request) (db : DB) :
  rounds (handle_all qs db) = rounds db.
Proof.
  unfold handle_all. revert db. induction qs as [| q qs IH]; intros db; simpl.
  - reflexivity.
  - rewrite IH. apply handle_rounds.
Qed.

(** ** Rounding *)

Lemma round_half_even_floor (q : Q) :
  (Qfloor q <= round_half_even q <= Qfloor q + 1)%Z.
Proof.
  unfold round_half_even.
  destruct (q - inject_Z (Qfloor q) ?= 1 # 2)%Q; [destruct (Z.even _) | |]; lia.
Qed.

Lemma round_half_even_ge_int (q : Q) (z : Z) :
  (inject_Z z <= q)%Q -> (z <= round_half_even q)%Z.
Proof.
  intros H. apply Qfloor_resp_le in H. rewrite Qfloor_Z in H.
  pose proof (round_half_even_floor q). lia.
Qed.

Lemma round_half_even_le_int (q : Q) (z : Z) :
  (q <= inject_Z z)%Q -> (round_half_even q <= z)%Z.
Proof.
  intros H. pose proof (Qfloor_resp_le _ _ H) as Hf. rewrite Qfloor_Z in Hf.
  pose proof (round_half_even_floor q) as Hr.
  destruct (Z.eq_dec (Qfloor q) z) as [E | E]; [| lia].
  unfold round_half_even. rewrite E.
  assert (Hlt : (q - inject_Z z < 1 # 2)%Q).
  { apply Qle_lt_trans with 0%Q; [| reflexivity].
    unfold Qminus. apply (Qplus_le_l _ _ (inject_Z z)). ring_simplify. exact H. }
  destruct (Qcompare_spec (q - inject_Z z) (1 # 2)) as [He | _ | Hgt].
  - rewrite He in Hlt. now apply Qlt_irrefl in Hlt.
  - lia.
  - exfalso. apply (Qlt_irrefl (1 # 2)). now apply Qlt_trans with (q - inject_Z z)%Q.
Qed.

(** Rounding to two decimals keeps a draw inside [1.5, 5.0]. *)
Lemma py_round_2_bounds (u : Q) :
  (1.5 <= u)%Q -> (u <= 5.0)%Q ->
  (1.5 <= py_round u 2)%Q /\ (py_round u 2 <= 5.0)%Q.
Proof.
  intros Hlo Hhi. unfold py_round. rewrite Qred_correct.
  change (inject_Z (10 ^ 2)) with (inject_Z 100).
  set (z := round_half_even (u * inject_Z 100)).
  assert (H1 : (150 <= z)%Z).
  { apply round_half_even_ge_int.
    apply Qle_trans with (1.5 * inject_Z 100)%Q; [discriminate |].
    apply Qmult_le_compat_r; [exact Hlo | discriminate]. }
  assert (H2 : (z <= 500)%Z).
  { apply round_half_even_le_int.
    apply Qle_trans with (5.0 * inject_Z 100)%Q; [| discriminate].
    apply Qmult_le_compat_r; [exact Hhi | discriminate]. }
  unfold Qle, Qdiv, Qmult, Qinv, inject_Z. simpl. lia.
Qed.

(** The result of [round(x, 2)] is a whole number of hundredths. *)
Lemma py_round_2_hundredths (x : Q) :
  exists z : Z, (py_round x 2 == inject_Z z / 100)%Q.
Proof.
  exists (round_half_even (x * inject_Z 100)). unfold py_round.
  now rewrite Qred_correct.
Qed.

(** ** game_loop *)

Lemma create_step (now u : Q) (db : DB) :
  game_loop_step now u at_create db =
  {| next_pc := at_wait (new_round now u db) (now + 5)%Q;
     next_db := create_new_round now u db;
     sent := [msg_waiting (py_int (now + 5 - now))];
     slept := 0 |}.
Proof.
  unfold game_loop_step. now rewrite get_current_round_create.
Qed.

(** The first pass through the flight loop body: [coef] is stepped, then
    building the message calls the row and the coroutine ends. *)
Lemma flight_step_raises (now u : Q) (round : round_row) (start_time coef : Q) (db : DB) :
  (coef < r_crash_point round)%Q ->
  game_loop_step now u (at_flight round start_time coef) db =
  {| next_pc := finished TypeError round start_time (coef + 0.01)%Q;
     next_db := db; sent := []; slept := 0 |}.
Proof.
  intros H. apply Qlt_bool_iff in H. simpl. now rewrite H.
Qed.

(** Whatever the flight locals are, the step out of the flight loop ends the
    coroutine and sends nothing. *)
Lemma flight_step_finishes (now u : Q) (round : round_row) (start_time coef : Q) (db : DB) :
  exists coef',
    next_pc (game_loop_step now u (at_flight round start_time coef) db)
    = finished TypeError round start_time coef' /\
    sent (game_loop_step now u (at_flight round start_time coef) db) = [].
Proof.
  simpl. destruct (Qlt_bool coef (r_crash_point round)); simpl; eauto.
Qed.

Lemma create_step_started (now u : Q) (db : DB) :
  (1.5 <= u)%Q -> (u <= 5.0)%Q ->
  started (next_pc (game_loop_step now u at_create db)).
Proof.
  intros Hlo Hhi. rewrite create_step. simpl.
  destruct (py_round_2_bounds u Hlo Hhi) as [H _].
  apply Qlt_le_trans with 1.5%Q; [reflexivity | exact H].
Qed.

Lemma set_status_running_ended (round_id : Z) (rs : list round_row) (r : round_row) :
  In r (map (set_status round_id running) rs) -> r_status r = ended -> In r rs.
Proof.
  intros Hin Hst. apply in_map_iff in Hin as (x & Hx & Hin).
  unfold set_status in Hx. destruct (r_id x =? round_id)%Z; subst; [discriminate | exact Hin].
Qed.

Lemma started_step (now u : Q) (pc : loop_pc) (db : DB) :
  started pc ->
  let s := game_loop_step now u pc db in
  started (next_pc s) /\
  length (rounds (next_db s)) = length (rounds db) /\
  (forall r, In r (rounds (next_db s)) -> r_status r = ended -> In r (rounds db)).
Proof.
  destruct pc as [| round start_time | round start_time coef | e round start_time coef];
    simpl; intros Hpc.
  - contradiction.
  - destruct (Qlt_bool now start_time); simpl.
    + auto.
    + split; [exact Hpc |]. split; [apply length_map |].
      apply set_status_running_ended.
  - apply Qlt_bool_iff in Hpc. rewrite Hpc. simpl. auto.
  - auto.
Qed.

Lemma started_run (inputs : list (Q * Q)) (pc : loop_pc) (db : DB) :
  started pc ->
  let final := game_loop_run inputs pc db in
  started (fst final) /\
  length (rounds (snd final)) = length (rounds db) /\
  (forall r, In r (rounds (snd final)) -> r_status r = ended -> In r (rounds db)).
Proof.
  revert pc db. induction inputs as [| [now u] rest IH]; intros pc db Hpc; simpl.
  - auto.
  - destruct (started_step now u pc db Hpc) as (Hpc' & Hlen & Hend).
    destruct (IH _ (next_db (game_loop_step now u pc db)) Hpc') as (Hf & Hlen' & Hend').
    split; [exact Hf |]. split; [congruence |]. auto.
Qed.

(** A run of [game_loop] from its entry creates at most one round and never
    stores the status [ended]: whatever the clock does, the coroutine is over
    before line 207. *)
Lemma game_loop_run_single_round (inputs : list (Q * Q)) (db : DB) :
  Forall (fun i => (1.5 <= snd i)%Q /\ (snd i <= 5.0)%Q) inputs ->
  let final := game_loop_run inputs at_create db in
  (length (rounds (snd final)) <= S (length (rounds db)))%nat /\
  (forall r, In r (rounds (snd final)) -> r_status r = ended -> In r (rounds db)).
Proof.
  intros Hin. destruct inputs as [| [now u] rest].
  - simpl. split; [lia | auto].
  - apply Forall_cons in Hin as [[Hlo Hhi] _]. simpl in Hlo, Hhi.
    pose proof (create_step_started now u db Hlo Hhi) as Hst.
    destruct (started_run rest _ (next_db (game_loop_step now u at_create db)) Hst)
      as (_ & Hlen & Hend).
    cbn [game_loop_run]. cbv zeta.
    rewrite create_step in Hlen, Hend |- *. cbn [next_pc next_db] in *.
    cbn [create_new_round rounds] in Hlen, Hend.
    rewrite length_app in Hlen. simpl in Hlen.
    split; [rewrite Hlen; lia |].
    intros r Hr Hended. specialize (Hend r Hr Hended).
    apply in_app_or in Hend as [H | [<- | []]]; [exact H | discriminate].
Qed.

(** ** The scenario, evaluated *)

Lemma db_waiting_round :
  get_current_round db_waiting = Some round_fetched.
Proof. vm_compute. reflexivity. Qed.

Lemma db_bet_round :
  get_current_round db_bet = Some round_fetched.
Proof. vm_compute. reflexivity. Qed.

Lemma db_running_round :
  get_current_round db_running = Some round_running.
Proof. vm_compute. reflexivity. Qed.

Lemma db_waiting_nonneg : balances_nonneg db_waiting.
Proof.
  intros user_id balance H. simpl in H.
  apply lookup_insert_Some in H as [[_ <-] | [_ H]].
  - discriminate.
  - rewrite lookup_empty in H. discriminate.
Qed.

(** *** What does hold of the round lifecycle *)

(** The row a new cycle inserts: waiting, due five seconds from now, with a
    crash point inside [1.5, 5.0]. *)
Lemma create_new_round_row (now u : Q) (db : DB) :
  (1.5 <= u)%Q -> (u <= 5.0)%Q ->
  rounds (create_new_round now u db) = (rounds db ++ [new_round now u db])%list /\
  r_status (new_round now u db) = waiting /\
  r_start_time (new_round now u db) = (now + 5)%Q /\
  (1.5 <= r_crash_point (new_round now u db))%Q /\
  (r_crash_point (new_round now u db) <= 5.0)%Q.
Proof.
  intros Hlo Hhi. destruct (py_round_2_bounds u Hlo Hhi). auto.
Qed.

Lemma set_status_row (round_id : Z) (st : status) (r : round_row) :
  r_id (set_status round_id st r) = r_id r /\
  r_start_time (set_status round_id st r) = r_start_time r /\
  r_crash_point (set_status round_id st r) = r_crash_point r /\
  (r_status (set_status round_id st r) = r_status r \/
   (r_id r = round_id /\ r_status (set_status round_id st r) = st)).
Proof.
  unfold set_status. destruct (r_id r =? round_id)%Z eqn:E; simpl.
  - apply Z.eqb_eq in E. repeat split; auto.
  - repeat split; auto.
Qed.

Lemma tracks_step (now u : Q) (pc : loop_pc) (db : DB) :
  tracks pc db ->
  tracks (next_pc (game_loop_step now u pc db)) (next_db (game_loop_step now u pc db)).
Proof.
  destruct pc as [| round start_time | round start_time coef | e round start_time coef];
    intros Hpc.
  - rewrite create_step. simpl. intros r Hin Hid.
    apply in_app_or in Hin as [Hin | [<- | []]]; [| reflexivity].
    apply next_round_id_above in Hin. lia.
  - simpl. destruct (Qlt_bool now start_time); simpl; [exact Hpc |].
    intros r Hin Hid. apply in_map_iff in Hin as (x & <- & Hin).
    destruct (set_status_row (r_id round) running x) as (Hi & _ & _ & [Hs | [_ Hs]]).
    + unfold set_status in *. rewrite Hi in Hid. apply Z.eqb_eq in Hid.
      now rewrite Hid.
    + exact Hs.
  - simpl. now destruct (Qlt_bool coef (r_crash_point round)).
  - exact I.
Qed.

Lemma row_advanced_refl (r : round_row) : row_advanced r r.
Proof. unfold row_advanced, advances. auto. Qed.

Lemma update_round_status_advances (round_id : Z) (st : status) (db : DB) (i : nat)
    (r : round_row) :
  (forall x, In x (rounds db) -> r_id x = round_id -> advances (r_status x) st) ->
  rounds db !! i = Some r ->
  exists r',
    rounds (update_round_status round_id st db) !! i = Some r' /\ row_advanced r r'.
Proof.
  intros Hadv Hi. exists (set_status round_id st r). simpl.
  rewrite list_lookup_fmap, Hi. split; [reflexivity |].
  assert (Hin : In r (rounds db)).
  { apply list_elem_of_In, list_elem_of_lookup. eauto. }
  destruct (set_status_row round_id st r) as (H1 & H2 & H3 & [H4 | [H4 H5]]);
    unfold row_advanced; repeat split; auto.
  - rewrite H4. unfold advances. auto.
  - rewrite H5. auto.
Qed.

(** Safety of the lifecycle: a step of the loop keeps every row in place with
    its id, start time and crash point, and moves its status at most one
    phase forward. *)
Lemma game_loop_step_advances (now u : Q) (pc : loop_pc) (db : DB) (i : nat)
    (r : round_row) :
  tracks pc db ->
  rounds db !! i = Some r ->
  exists r',
    rounds (next_db (game_loop_step now u pc db)) !! i = Some r' /\ row_advanced r r'.
Proof.
  intros Hpc Hi.
  assert (Hsame : exists r', rounds db !! i = Some r' /\ row_advanced r r').
  { exists r. split; [exact Hi | apply row_advanced_refl]. }
  destruct pc as [| round start_time | round start_time coef | e round start_time coef].
  - rewrite create_step. simpl. rewrite lookup_app_l; [exact Hsame |].
    now apply lookup_lt_Some in Hi.
  - simpl. destruct (Qlt_bool now start_time); simpl; [exact Hsame |].
    apply update_round_status_advances; [| exact Hi].
    intros x Hx Hid. rewrite (Hpc x Hx Hid). unfold advances. auto.
  - simpl. destruct (Qlt_bool coef (r_crash_point round)); simpl; [exact Hsame |].
    apply update_round_status_advances; [| exact Hi].
    intros x Hx Hid. rewrite (Hpc x Hx Hid). unfold advances. auto.
  - exact Hsame.
Qed.

(** ** Amounts and cells that are not numbers *)

(** The amounts that pass both comparisons of line 121 against a balance
    [bal]: NaN, and the numbers in (0, bal]. *)
Lemma passes_line_121 (amount : Nullable.pyfloat) (bal : Q) :
  Nullable.le_zero amount = false /\ Nullable.gt amount bal = false <->
  amount = Nullable.nan \/
  exists q, amount = Nullable.finite q /\ (0 < q)%Q /\ (q <= bal)%Q.
Proof.
  destruct amount as [q | | |]; simpl.
  - rewrite Qle_bool_false, Qlt_bool_false. split.
    + intros [H1 H2]. right. eauto.
    + intros [H | (q' & [= <-] & H1 & H2)]; [discriminate | auto].
  - split; [intros [_ H]; discriminate |].
    intros [H | (q & H & _)]; discriminate.
  - split; [intros [H _]; discriminate |].
    intros [H | (q & H & _)]; discriminate.
  - split; auto.
Qed.

(** The table [Nullable.place_bet] leaves behind when it accepts. *)
Lemma nullable_place_bet_cases (user_id : string) (amount : Nullable.pyfloat)
    (db : Nullable.DB) :
  (exists round bal,
     Nullable.get_current_round db = Some round /\ r_status round = waiting /\
     Nullable.get_user_balance user_id db = Some bal /\
     Nullable.le_zero amount = false /\ Nullable.gt amount bal = false /\
     Nullable.place_bet user_id amount db
     = (Return resp_success,
        {| Nullable.users :=
             alter (fun balance =>
                      Nullable.sql_sub balance (Nullable.sql_bind amount))
                   user_id (Nullable.users db);
           Nullable.bets :=
             (Nullable.bets db ++
                [{| Nullable.b_user_id := user_id;
                    Nullable.b_amount := Nullable.sql_bind amount;
                    Nullable.b_round_id := r_id round;
                    Nullable.b_cashed_out := false;
                    Nullable.b_coefficient := 1.0%Q |}])%list;
           Nullable.rounds := Nullable.rounds db |})) \/
  (exists msg, Nullable.place_bet user_id amount db = (Return (resp_error msg), db)) \/
  Nullable.place_bet user_id amount db = (Raise TypeError, db).
Proof.
  unfold Nullable.place_bet.
  destruct (Nullable.get_current_round db) as [round |]; [| right; left; eauto].
  destruct (r_status round) eqn:Hst; simpl; try (right; left; eauto; fail).
  destruct (Nullable.le_zero amount) eqn:E1; [right; left; eauto |].
  destruct (Nullable.get_user_balance user_id db) as [bal |]; [| right; now right].
  destruct (Nullable.gt amount bal) eqn:E2; [right; left; eauto |].
  left. exists round, bal. auto 10.
Qed.

Lemma nullable_cashout_keeps_db (now : Q) (user_id : string) (db : Nullable.DB) :
  snd (Nullable.cashout now user_id db) = db.
Proof.
  unfold Nullable.cashout.
  destruct (Nullable.get_current_round db) as [round |]; [| reflexivity].
  now destruct (negb _).
Qed.

Lemma nullable_get_balance_keeps_db (user_id : string) (db : Nullable.DB) :
  snd (Nullable.get_balance user_id db) = db.
Proof.
  unfold Nullable.get_balance. now destruct (Nullable.get_user_balance user_id db).
Qed.

(** An infinite amount never reaches the writes of [place_bet]. *)
Lemma place_bet_infinite (user_id : string) (amount : Nullable.pyfloat)
    (db : Nullable.DB) :
  amount = Nullable.pos_inf \/ amount = Nullable.neg_inf ->
  snd (Nullable.place_bet user_id amount db) = db.
Proof.
  intros Hinf.
  destruct (nullable_place_bet_cases user_id amount db)
    as [(round & bal & _ & _ & _ & H1 & H2 & _) | [(msg & ->) | ->]];
    [| reflexivity | reflexivity].
  exfalso. destruct Hinf as [-> | ->]; discriminate.
Qed.

(** *** On numbers the two embeddings agree *)

Lemma lift_get_user_balance (user_id : string) (db : DB) :
  Nullable.get_user_balance user_id (lift db) = Some (get_user_balance user_id db).
Proof.
  unfold Nullable.get_user_balance, get_user_balance. simpl.
  rewrite lookup_fmap. now destruct (users db !! user_id).
Qed.

Lemma lift_get_balance (user_id : string) (db : DB) :
  Nullable.get_balance user_id (lift db)
  = (fst (get_balance user_id db), lift (snd (get_balance user_id db))).
Proof.
  unfold Nullable.get_balance. now rewrite lift_get_user_balance.
Qed.

Lemma lift_cashout (now : Q) (user_id : string) (db : DB) :
  Nullable.cashout now user_id (lift db)
  = (fst (cashout now user_id db), lift (snd (cashout now user_id db))).
Proof.
  unfold Nullable.cashout, cashout.
  change (Nullable.get_current_round (lift db)) with (get_current_round db).
  destruct (get_current_round db) as [round |]; [| reflexivity].
  now destruct (negb _).
Qed.

Lemma lift_place_bet (user_id : string) (amount : Q) (db : DB) :
  Nullable.place_bet user_id (Nullable.finite amount) (lift db)
  = (fst (place_bet user_id amount db), lift (snd (place_bet user_id amount db))).
Proof.
  unfold Nullable.place_bet, place_bet.
  change (Nullable.get_current_round (lift db)) with (get_current_round db).
  destruct (get_current_round db) as [round |]; [| reflexivity].
  destruct (negb _); [reflexivity |].
  rewrite lift_get_user_balance. simpl.
  destruct (Qle_bool amount 0); simpl; [reflexivity |].
  destruct (Qlt_bool (get_user_balance user_id db) amount); [reflexivity |].
  simpl. f_equal. unfold lift. simpl. f_equal.
  - apply map_eq. intros other.
    rewrite lookup_fmap, !lookup_alter. destruct (decide (user_id = other)).
    + rewrite lookup_fmap. now destruct (users db !! user_id).
    + now rewrite lookup_fmap.
  - now rewrite map_app.
Qed.

(** * The claims *)

(** C4. A bet that [place_bet] accepts (the current round is waiting and
    [0 < amount <= balance]) is answered with success; right afterwards the
    user's balance is the old balance minus [amount], every other balance is
    as before, and the bets table holds a row for this user and round with
    that amount and [cashed_out] false. *)
Theorem place_bet_debits_and_records
    (user_id : string) (amount : Q) (db : DB) (round : round_row) :
  get_current_round db = Some round ->
  r_status round = waiting ->
  (0 < amount)%Q ->
  (amount <= get_user_balance user_id db)%Q ->
  exists db',
    place_bet user_id amount db = (Return resp_success, db') /\
    get_user_balance user_id db' = (get_user_balance user_id db - amount)%Q /\
    (forall other, user_id <> other ->
       get_user_balance other db' = get_user_balance other db) /\
    exists b,
      In b (bets db') /\ b_user_id b = user_id /\ b_round_id b = r_id round /\
      b_amount b = amount /\ b_cashed_out b = false.
Proof.
  intros Hcur Hst Hpos Hle. exists (bet_placed user_id amount round db).
  split; [now apply place_bet_accepts |].
  split; [now apply bet_placed_balance |].
  split; [intros other Hne; now apply bet_placed_other_balance |].
  eexists. split; [simpl; apply in_or_app; right; left; reflexivity |].
  simpl. auto.
Qed.

Lemma place_bet_debits_and_records_witness :
  exists db',
    place_bet "alice" 20 db_waiting = (Return resp_success, db') /\
    get_user_balance "alice" db' = (get_user_balance "alice" db_waiting - 20)%Q /\
    (forall other, "alice" <> other ->
       get_user_balance other db' = get_user_balance other db_waiting) /\
    exists b,
      In b (bets db') /\ b_user_id b = "alice" /\ b_round_id b = r_id round_fetched /\
      b_amount b = 20%Q /\ b_cashed_out b = false.
Proof.
  apply (place_bet_debits_and_records "alice" 20 db_waiting round_fetched).
  - exact db_waiting_round.
  - reflexivity.
  - reflexivity.
  - vm_compute. discriminate.
Defined.

(** C7. A [place_bet] call whose amount is at most zero or above the user's
    balance is answered with an error and changes nothing: the database after
    the call is the database before it, so no balance moves and no bet row is
    added. *)
Theorem place_bet_bad_amount_rejected (user_id : string) (amount : Q) (db : DB) :
  (amount <= 0)%Q \/ (get_user_balance user_id db < amount)%Q ->
  exists msg, place_bet user_id amount db = (Return (resp_error msg), db).
Proof.
  intros Hbad. unfold place_bet.
  destruct (get_current_round db) as [round |]; [| eauto].
  destruct (negb _); [eauto |].
  assert (E : Qle_bool amount 0 || Qlt_bool (get_user_balance user_id db) amount = true).
  { apply orb_true_iff. destruct Hbad as [H | H].
    - left. now apply Qle_bool_iff.
    - right. now apply Qlt_bool_iff. }
  rewrite E. eauto.
Qed.

Lemma place_bet_bad_amount_rejected_witness :
  (exists msg, place_bet "alice" 0 db_waiting = (Return (resp_error msg), db_waiting)) /\
  (exists msg, place_bet "alice" 150 db_waiting = (Return (resp_error msg), db_waiting)).
Proof.
  split.
  - apply (place_bet_bad_amount_rejected "alice" 0 db_waiting).
    left. vm_compute. discriminate.
  - apply (place_bet_bad_amount_rejected "alice" 150 db_waiting).
    right. vm_compute. reflexivity.
Defined.

(** C8.  A stake of NaN gets through the validation of line 121, because
    [nan <= 0] and [nan > balance] are both False: while the current round
    waits, [place_bet] answers with success for a user whose row holds a
    number, and afterwards that row holds NULL, not a balance of at least
    zero; reading it makes [get_balance] raise a TypeError. *)
Theorem nan_stake_voids_balance
    (user_id : string) (db : Nullable.DB) (round : round_row) (bal : Q) :
  Nullable.get_current_round db = Some round ->
  r_status round = waiting ->
  Nullable.users db !! user_id = Some (Some bal) ->
  exists db',
    Nullable.place_bet user_id Nullable.nan db = (Return resp_success, db') /\
    Nullable.users db' !! user_id = Some None /\
    Nullable.get_balance user_id db' = (Raise TypeError, db').
Proof.
  intros Hcur Hst Hrow. unfold Nullable.place_bet.
  rewrite Hcur, Hst. simpl. unfold Nullable.get_user_balance at 1. rewrite Hrow.
  simpl. eexists. split; [reflexivity |].
  assert (E : alter (fun balance => Nullable.sql_sub balance None) user_id
                (Nullable.users db) !! user_id = Some None).
  { rewrite lookup_alter_eq, Hrow. reflexivity. }
  split; [exact E |].
  unfold Nullable.get_balance, Nullable.get_user_balance. simpl. now rewrite E.
Qed.

(** The scenario: alice holds 100 while round 1 waits; her stake of NaN is
    accepted and her row is NULL afterwards. *)
Lemma nan_stake_voids_balance_witness :
  Nullable.users (lift db_waiting) !! "alice" = Some (Some (0.0 + 100)%Q) /\
  exists db',
    Nullable.place_bet "alice" Nullable.nan (lift db_waiting)
    = (Return resp_success, db') /\
    Nullable.users db' !! "alice" = Some None /\
    Nullable.get_balance "alice" db' = (Raise TypeError, db').
Proof.
  assert (Hrow : Nullable.users (lift db_waiting) !! "alice"
                 = Some (Some (0.0 + 100)%Q)) by (vm_compute; reflexivity).
  split; [exact Hrow |].
  apply (nan_stake_voids_balance "alice" (lift db_waiting) round_fetched (0.0 + 100)%Q).
  - exact db_waiting_round.
  - reflexivity.
  - exact Hrow.
Defined.

(** C1, as the claim states it, fails: the user of the scenario already has
    one bet in the waiting round, and a second [place_bet] is answered with
    success, lowers the balance and records a second bet for the same user
    and round. *)
Lemma duplicate_bet_accepted :
  get_current_round db_bet = Some round_fetched /\
  bet_count "alice" (r_id round_fetched) db_bet = 1%nat /\
  fst (place_bet "alice" 30 db_bet) = Return resp_success /\
  (get_user_balance "alice" (snd (place_bet "alice" 30 db_bet))
   < get_user_balance "alice" db_bet)%Q /\
  bet_count "alice" (r_id round_fetched) (snd (place_bet "alice" 30 db_bet)) = 2%nat.
Proof.
  repeat split; vm_compute; reflexivity.
Qed.

(** C1, amended.  [place_bet] never looks at the bets table: for a user who
    already has a bet in the current round, a further call while the round is
    waiting and with [0 < amount <= balance] is accepted like a first one; it
    is answered with success, the balance drops by [amount] and the user has
    one more bet row for that round. *)
Theorem place_bet_accepts_further_bets
    (user_id : string) (amount : Q) (db : DB) (round : round_row) :
  get_current_round db = Some round ->
  r_status round = waiting ->
  (0 < bet_count user_id (r_id round) db)%nat ->
  (0 < amount)%Q ->
  (amount <= get_user_balance user_id db)%Q ->
  exists db',
    place_bet user_id amount db = (Return resp_success, db') /\
    get_user_balance user_id db' = (get_user_balance user_id db - amount)%Q /\
    bet_count user_id (r_id round) db' = S (bet_count user_id (r_id round) db) /\
    (2 <= bet_count user_id (r_id round) db')%nat.
Proof.
  intros Hcur Hst Hhas Hpos Hle. exists (bet_placed user_id amount round db).
  split; [now apply place_bet_accepts |].
  split; [now apply bet_placed_balance |].
  rewrite bet_placed_count. split; [reflexivity | lia].
Qed.

Lemma place_bet_accepts_further_bets_witness :
  exists db',
    place_bet "alice" 30 db_bet = (Return resp_success, db') /\
    get_user_balance "alice" db' = (get_user_balance "alice" db_bet - 30)%Q /\
    bet_count "alice" (r_id round_fetched) db'
    = S (bet_count "alice" (r_id round_fetched) db_bet) /\
    (2 <= bet_count "alice" (r_id round_fetched) db')%nat.
Proof.
  apply (place_bet_accepts_further_bets "alice" 30 db_bet round_fetched).
  - exact db_bet_round.
  - reflexivity.
  - vm_compute. lia.
  - reflexivity.
  - vm_compute. discriminate.
Defined.

(** C6, as the claim states it, fails for the ended phase: when the only
    round has ended there is no current round, and both calls are answered
    with their no-round message, not with the wrong-phase one. *)
Lemma ended_round_is_no_round :
  rounds db_ended
  = [{| r_id := 1; r_status := ended; r_start_time := 5; r_crash_point := 3 |}] /\
  cashout 9 "alice" db_ended = (Return (resp_error msg_no_game), db_ended) /\
  answers_error msg_too_early (fst (cashout 9 "alice" db_ended)) = false /\
  place_bet "alice" 20 db_ended = (Return (resp_error msg_no_active_round), db_ended) /\
  answers_error msg_round_started (fst (place_bet "alice" 20 db_ended)) = false.
Proof.
  repeat split; vm_compute; reflexivity.
Qed.

(** C6, amended.  [place_bet] is answered with the round-has-started error
    whenever the current round is not waiting, and [cashout] with the
    too-early error whenever the current round is not running; a round that
    has ended is never the current round, and when there is no current round
    (all rounds ended) both calls are answered with their no-round error
    instead.  None of these answers changes the database. *)
Theorem phase_gate (now : Q) (user_id : string) (amount : Q) (db : DB) :
  (forall round, get_current_round db = Some round -> r_status round <> waiting ->
     place_bet user_id amount db = (Return (resp_error msg_round_started), db)) /\
  (forall round, get_current_round db = Some round -> r_status round <> running ->
     cashout now user_id db = (Return (resp_error msg_too_early), db)) /\
  (forall round, get_current_round db = Some round -> r_status round <> ended) /\
  (get_current_round db = None ->
     place_bet user_id amount db = (Return (resp_error msg_no_active_round), db) /\
     cashout now user_id db = (Return (resp_error msg_no_game), db)) /\
  ((forall r, In r (rounds db) -> r_status r = ended) -> get_current_round db = None).
Proof.
  split; [| split; [| split; [| split]]].
  - intros round Hcur Hst. unfold place_bet. rewrite Hcur.
    destruct (r_status round); [contradiction | reflexivity | reflexivity].
  - intros round Hcur Hst. unfold cashout. rewrite Hcur.
    destruct (r_status round); [reflexivity | contradiction | reflexivity].
  - apply get_current_round_not_ended.
  - intros Hnone. unfold place_bet, cashout. now rewrite Hnone.
  - apply all_ended_no_current_round.
Qed.

Lemma phase_gate_witness :
  place_bet "alice" 20 db_running = (Return (resp_error msg_round_started), db_running) /\
  cashout 3 "alice" db_waiting = (Return (resp_error msg_too_early), db_waiting) /\
  (place_bet "alice" 20 db_ended = (Return (resp_error msg_no_active_round), db_ended) /\
   cashout 9 "alice" db_ended = (Return (resp_error msg_no_game), db_ended)) /\
  get_current_round db_ended = None.
Proof.
  split; [| split; [| split]].
  - apply (proj1 (phase_gate 3 "alice" 20 db_running) round_running).
    + exact db_running_round.
    + discriminate.
  - apply (proj1 (proj2 (phase_gate 3 "alice" 20 db_waiting)) round_fetched).
    + exact db_waiting_round.
    + discriminate.
  - apply (proj1 (proj2 (proj2 (proj2 (phase_gate 9 "alice" 20 db_ended))))).
    vm_compute. reflexivity.
  - apply (proj2 (proj2 (proj2 (proj2 (phase_gate 9 "alice" 20 db_ended))))).
    intros r [<- | []]. reflexivity.
Defined.

(** C3.  The claim describes a successful cashout; the code has none.  On
    every database whose current round is running, [cashout] stops at line
    146 with a TypeError: no win is returned, nothing is credited and no bet
    is marked (the database is unchanged). *)
Theorem cashout_on_running_round_raises
    (now : Q) (user_id : string) (db : DB) (round : round_row) :
  get_current_round db = Some round ->
  r_status round = running ->
  cashout now user_id db = (Raise TypeError, db) /\
  answers_win (fst (cashout now user_id db)) = false.
Proof.
  intros Hcur Hst. rewrite (cashout_running_raises now user_id db round Hcur Hst).
  split; reflexivity.
Qed.

(** The scenario: the claim promises a win of 40 on a stake of 20 at
    coefficient 2.00 (clock 15, start 5); the call raises instead. *)
Lemma cashout_on_running_round_raises_witness :
  (spec_win 20 (spec_coefficient 5 0.1 15) == 40)%Q /\
  In {| b_user_id := "alice"; b_amount := 20; b_round_id := 1;
        b_cashed_out := false; b_coefficient := 1.0 |} (bets db_running) /\
  cashout 15 "alice" db_running = (Raise TypeError, db_running) /\
  answers_win (fst (cashout 15 "alice" db_running)) = false.
Proof.
  split; [reflexivity |]. split; [left; reflexivity |].
  apply (cashout_on_running_round_raises 15 "alice" db_running round_running).
  - exact db_running_round.
  - reflexivity.
Defined.

(** C5.  [cashout] is never answered with the no-bet error: whatever the
    database, it ends with the no-game error, the too-early error or a
    TypeError.  In the scenario the first cashout raises, the second raises
    again; and on a table where the bet is already marked cashed out, or for a
    user without any bet, the call raises as well. *)
Theorem cashout_never_answers_no_bet :
  (forall now user_id db,
     answers_error msg_no_bet (fst (cashout now user_id db)) = false) /\
  (let first := cashout 15 "alice" db_running in
   let second := cashout 16 "alice" (snd first) in
   fst first = Raise TypeError /\ fst second = Raise TypeError /\
   snd second = db_running) /\
  cashout 16 "alice" db_cashed = (Raise TypeError, db_cashed) /\
  cashout 16 "bob" db_running = (Raise TypeError, db_running).
Proof.
  split; [| split; [| split]].
  - intros now user_id db. by_cashout_cases now user_id db.
  - vm_compute. auto.
  - now apply (cashout_running_raises 16 "alice" db_cashed round_running).
  - now apply (cashout_running_raises 16 "bob" db_running round_running).
Qed.

(** C10.  [cashout] never reads the crash point (its answer is the same
    whatever crash points the rounds table stores), but no call of [cashout]
    is answered with a win.  In the scenario at clock 35 the formula of the
    claim gives a coefficient of 4.0, above the crash point 3.0, and the call
    raises a TypeError. *)
Theorem cashout_never_answers_win :
  (forall f now user_id db,
     fst (cashout now user_id (with_crash_points f db)) = fst (cashout now user_id db)) /\
  (forall now user_id db, answers_win (fst (cashout now user_id db)) = false) /\
  (r_crash_point round_running
   < py_round (1.0 + (35 - r_start_time round_running) * 0.1) 2)%Q /\
  cashout 35 "alice" db_running = (Raise TypeError, db_running).
Proof.
  split; [| split; [| split]].
  - intros f now user_id db. apply cashout_ignores_crash_point.
  - intros now user_id db. by_cashout_cases now user_id db.
  - reflexivity.
  - now apply (cashout_running_raises 35 "alice" db_running round_running).
Qed.

(** C2.  When the round of the scenario starts running (clock 5, which the
    loop keeps as its actual start), the flight loop holds [coef = 1.0].  Its
    first pass, at that same instant, steps [coef] to 1.01, where the formula
    of the specification gives 1.0, and then ends the coroutine with a
    TypeError before anything is broadcast; a cashout at that instant raises
    too. *)
Theorem flight_loop_first_pass :
  next_pc step_started = at_flight round_fetched 5 1.0 /\
  game_loop_step 5 3.0 (next_pc step_started) db_running
  = {| next_pc := finished TypeError round_fetched 5 (1.0 + 0.01);
       next_db := db_running; sent := []; slept := 0 |} /\
  (spec_coefficient 5 0.1 5 < 1.0 + 0.01)%Q /\
  cashout 5 "alice" db_running = (Raise TypeError, db_running).
Proof.
  split; [| split; [| split]].
  - vm_compute. reflexivity.
  - vm_compute. reflexivity.
  - reflexivity.
  - now apply (cashout_running_raises 5 "alice" db_running round_running).
Qed.

(** C9.  An undisturbed run of [game_loop] on the funded database: one round
    is created, it is marked running at clock 5, and the first pass of the
    flight loop ends the coroutine.  Afterwards the round is still running,
    it is the only round, and further steps change nothing. *)
Theorem game_loop_stops_in_flight :
  let final := game_loop_run clock_of_run at_create db_funded in
  fst final = finished TypeError round_fetched 5 (1.0 + 0.01) /\
  rounds (snd final) = [round_running] /\
  get_current_round (snd final) = Some round_running /\
  game_loop_run clock_of_run (fst final) (snd final) = final.
Proof.
  vm_compute. repeat split; reflexivity.
Qed.

(** * Further properties of the code *)

(** ** Accounts: get_user_balance, set_user_balance, add_balance *)




(** ** get_balance *)

(** X4. For a user without a row [get_balance] answers balance 0 and does
    not create the row. *)
Theorem get_balance_unknown_user (user_id : string) (db : DB) :
  users db !! user_id = None ->
  get_balance user_id db = (Return (resp_balance 0), db) /\
  users (snd (get_balance user_id db)) !! user_id = None.
Proof.
  intros H. unfold get_balance, get_user_balance. rewrite H. simpl.
  split; [reflexivity | exact H].
Qed.

Lemma get_balance_unknown_user_witness :
  get_balance "bob" db_running = (Return (resp_balance 0), db_running) /\
  users (snd (get_balance "bob" db_running)) !! "bob" = None.
Proof.
  apply (get_balance_unknown_user "bob" db_running). vm_compute. reflexivity.
Defined.

(** ** The rounds table: get_current_round, create_new_round,
       update_round_status *)

Lemma keep_latest_fold_max (rs : list round_row) (acc : option round_row)
    (r : round_row) :
  fold_left keep_latest rs acc = Some r ->
  (forall x, In x rs -> (r_id x <= r_id r)%Z) /\
  (forall a, acc = Some a -> (r_id a <= r_id r)%Z).
Proof.
  revert acc. induction rs as [| x rs IH]; intros acc H; simpl in *.
  - split; [tauto |]. intros a Ha. rewrite Ha in H. inversion H. lia.
  - destruct (IH _ H) as [Hrs Hacc]. clear IH H.
    destruct acc as [a |]; simpl in Hacc.
    + destruct (r_id a <? r_id x)%Z eqn:E.
      * apply Z.ltb_lt in E. specialize (Hacc x eq_refl).
        split; [intros y [<- | Hy]; auto |]. intros a' [= <-]. lia.
      * apply Z.ltb_ge in E. specialize (Hacc a eq_refl).
        split; [intros y [<- | Hy]; [lia | auto] |]. intros a' [= <-]. lia.
    + specialize (Hacc x eq_refl).
      split; [intros y [<- | Hy]; auto | discriminate].
Qed.

Lemma keep_latest_fold_some (rs : list round_row) (a : round_row) :
  fold_left keep_latest rs (Some a) <> None.
Proof.
  revert a. induction rs as [| x rs IH]; intros a; simpl; [discriminate |].
  destruct (r_id a <? r_id x)%Z; apply IH.
Qed.

(** X5. The round [get_current_round] returns is a row of the table, is
    waiting or running, and no waiting or running row has a larger id. *)
Theorem get_current_round_latest (db : DB) (r : round_row) :
  get_current_round db = Some r ->
  In r (rounds db) /\ is_active r = true /\
  forall r', In r' (rounds db) -> is_active r' = true -> (r_id r' <= r_id r)%Z.
Proof.
  intros H. destruct (get_current_round_in db r H) as [Hin Hact].
  split; [exact Hin |]. split; [exact Hact |].
  intros r' Hin' Hact'. unfold get_current_round in H.
  apply keep_latest_fold_max in H as [H _]. apply H.
  now apply List.filter_In.
Qed.

Lemma get_current_round_latest_witness :
  In round_running (rounds db_restarted) /\ is_active round_running = true /\
  get_current_round db_restarted
  = Some {| r_id := 2; r_status := waiting; r_start_time := 105; r_crash_point := 2 |} /\
  (r_id round_running <= 2)%Z.
Proof.
  assert (E : get_current_round db_restarted
              = Some {| r_id := 2; r_status := waiting; r_start_time := 105;
                        r_crash_point := 2 |}) by (vm_compute; reflexivity).
  destruct (get_current_round_latest db_restarted _ E) as (_ & _ & H).
  assert (Hin : In round_running (rounds db_restarted)) by (left; reflexivity).
  split; [exact Hin |]. split; [reflexivity |]. split; [exact E |].
  exact (H round_running Hin eq_refl).
Defined.

(** X6. [get_current_round] returns nothing exactly when every row of the
    table has ended (in particular on an empty table). *)
Theorem get_current_round_none_iff (db : DB) :
  get_current_round db = None <->
  (forall r, In r (rounds db) -> r_status r = ended).
Proof.
  split; [| apply all_ended_no_current_round].
  unfold get_current_round. intros H r Hin.
  destruct (is_active r) eqn:Hact.
  - exfalso.
    assert (Hf : In r (List.filter is_active (rounds db))) by now apply List.filter_In.
    destruct (List.filter is_active (rounds db)) as [| x l]; [contradiction |].
    simpl in H. now apply keep_latest_fold_some in H.
  - unfold is_active in Hact. now destruct (r_status r).
Qed.

Lemma get_current_round_none_iff_witness :
  get_current_round init_db = None /\ get_current_round db_ended = None /\
  r_status round_running <> ended.
Proof.
  split; [| split].
  - apply (proj2 (get_current_round_none_iff init_db)). intros r [].
  - apply (proj2 (get_current_round_none_iff db_ended)).
    intros r [<- | []]. reflexivity.
  - discriminate.
Defined.

(** X7. The row [create_new_round] inserts has an id above every id of the
    table, and it is the current round right afterwards, whatever older
    waiting or running rows the table still holds. *)
Theorem create_new_round_supersedes (now u : Q) (db : DB) :
  get_current_round (create_new_round now u db) = Some (new_round now u db) /\
  Forall (fun r => (r_id r < r_id (new_round now u db))%Z) (rounds db) /\
  users (create_new_round now u db) = users db /\
  bets (create_new_round now u db) = bets db.
Proof.
  split; [apply get_current_round_create |].
  split; [| split; reflexivity].
  apply List.Forall_forall. intros r Hin. now apply next_round_id_above.
Qed.

(** X8. For a draw inside [1.5, 5.0], [create_new_round] adds exactly one
    row, at the end of the rounds table and leaving the older rows as they
    were; the row is waiting, starts five seconds after the clock reading,
    has a crash point inside [1.5, 5.0], and is the current round. *)
Theorem create_new_round_appends_waiting (now u : Q) (db : DB) :
  (1.5 <= u)%Q -> (u <= 5.0)%Q ->
  exists r,
    rounds (create_new_round now u db) = (rounds db ++ [r])%list /\
    get_current_round (create_new_round now u db) = Some r /\
    r_status r = waiting /\ r_start_time r = (now + 5)%Q /\
    (1.5 <= r_crash_point r)%Q /\ (r_crash_point r <= 5.0)%Q.
Proof.
  intros Hlo Hhi. exists (new_round now u db).
  split; [reflexivity |]. split; [apply get_current_round_create |].
  split; [reflexivity |]. split; [reflexivity |].
  apply (py_round_2_bounds u Hlo Hhi).
Qed.

Lemma create_new_round_appends_waiting_witness :
  exists r,
    rounds (create_new_round 100 2.718 db_running) = (rounds db_running ++ [r])%list /\
    get_current_round (create_new_round 100 2.718 db_running) = Some r /\
    r_status r = waiting /\ r_start_time r = (100 + 5)%Q /\
    (1.5 <= r_crash_point r)%Q /\ (r_crash_point r <= 5.0)%Q.
Proof.
  apply (create_new_round_appends_waiting 100 2.718 db_running).
  - vm_compute. discriminate.
  - vm_compute. discriminate.
Defined.

Lemma get_current_round_update_in (round_id : Z) (st : status) (db : DB)
    (r : round_row) :
  In r (rounds (update_round_status round_id st db)) ->
  r_id r = round_id -> r_status r = st.
Proof.
  simpl. intros Hin Hid. apply in_map_iff in Hin as (x & <- & _).
  unfold set_status in *. destruct (r_id x =? round_id)%Z eqn:E; [reflexivity |].
  apply Z.eqb_neq in E. contradiction.
Qed.

(** X9. Once [update_round_status] has stored [ended] for an id, the current
    round is never a row of that id: either there is none, or an older
    waiting or running row takes its place. *)
Theorem ended_round_not_current (round_id : Z) (db : DB) (r : round_row) :
  get_current_round (update_round_status round_id ended db) = Some r ->
  r_id r <> round_id.
Proof.
  intros H Hid. apply (get_current_round_not_ended _ _ H).
  apply get_current_round_in in H as [Hin _].
  exact (get_current_round_update_in round_id ended db r Hin Hid).
Qed.

Lemma ended_round_not_current_witness :
  get_current_round (update_round_status 2 ended db_restarted) = Some round_running /\
  r_id round_running <> 2%Z.
Proof.
  assert (E : get_current_round (update_round_status 2 ended db_restarted)
              = Some round_running) by (vm_compute; reflexivity).
  split; [exact E |].
  exact (ended_round_not_current 2 db_restarted round_running E).
Defined.

(** X10. [update_round_status] rewrites nothing but the status of the rows
    with the given id: the table keeps its length, every row keeps its id,
    start time and crash point, rows of another id keep their status, and
    users and bets are untouched.  With an id the table does not hold, the
    database is unchanged. *)
Theorem update_round_status_only_status (round_id : Z) (st : status) (db : DB) :
  length (rounds (update_round_status round_id st db)) = length (rounds db) /\
  (forall i r, rounds db !! i = Some r ->
     exists r', rounds (update_round_status round_id st db) !! i = Some r' /\
       r_id r' = r_id r /\ r_start_time r' = r_start_time r /\
       r_crash_point r' = r_crash_point r /\
       r_status r' = (if (r_id r =? round_id)%Z then st else r_status r)) /\
  users (update_round_status round_id st db) = users db /\
  bets (update_round_status round_id st db) = bets db /\
  ((forall r, In r (rounds db) -> r_id r <> round_id) ->
     update_round_status round_id st db = db).
Proof.
  split; [apply length_map |]. split; [| split; [reflexivity | split; [reflexivity |]]].
  - intros i r Hi. exists (set_status round_id st r). simpl.
    rewrite list_lookup_fmap, Hi. split; [reflexivity |].
    unfold set_status. now destruct (r_id r =? round_id)%Z.
  - intros Hno. destruct db as [us bs rs]. unfold update_round_status. simpl in *.
    f_equal. induction rs as [| x rs IH]; simpl; [reflexivity |].
    rewrite IH by (intros r Hr; apply Hno; now right). f_equal.
    unfold set_status. destruct (r_id x =? round_id)%Z eqn:E; [| reflexivity].
    apply Z.eqb_eq in E. exfalso. apply (Hno x); [now left | exact E].
Qed.

Lemma update_round_status_only_status_witness :
  (exists r', rounds (update_round_status 1 ended db_restarted) !! 0%nat = Some r' /\
     r_id r' = r_id round_running /\ r_start_time r' = r_start_time round_running /\
     r_crash_point r' = r_crash_point round_running /\
     r_status r' = ended) /\
  update_round_status 7 ended db_restarted = db_restarted.
Proof.
  destruct (update_round_status_only_status 1 ended db_restarted) as (_ & H & _).
  destruct (update_round_status_only_status 7 ended db_restarted) as (_ & _ & _ & _ & H7).
  split.
  - apply (H 0%nat round_running). reflexivity.
  - apply H7. intros r [<- | [<- | []]]; discriminate.
Defined.

(** ** Requests: place_bet, cashout, get_balance in sequence *)

(** The two ways [place_bet] can end. *)
Lemma place_bet_cases (user_id : string) (amount : Q) (db : DB) :
  (exists round,
     get_current_round db = Some round /\ r_status round = waiting /\
     (0 < amount)%Q /\ (amount <= get_user_balance user_id db)%Q /\
     place_bet user_id amount db
     = (Return resp_success, bet_placed user_id amount round db)) \/
  (exists msg, place_bet user_id amount db = (Return (resp_error msg), db)).
Proof.
  destruct (fst (place_bet user_id amount db)) as [[| msg | |] |] eqn:E.
  - exfalso. revert E. unfold place_bet.
    destruct (get_current_round db); [| discriminate].
    destruct (negb _); [discriminate |]. now destruct (_ || _).
  - right. exists msg. rewrite (surjective_pairing (place_bet user_id amount db)).
    now rewrite E, (place_bet_error_keeps_db _ _ _ _ E).
  - left. destruct (place_bet_success_inv _ _ _ E) as (round & H1 & H2 & H3 & H4).
    exists round. repeat split; auto. now apply place_bet_accepts.
  - exfalso. revert E. unfold place_bet.
    destruct (get_current_round db); [| discriminate].
    destruct (negb _); [discriminate |]. now destruct (_ || _).
  - exfalso. revert E. unfold place_bet.
    destruct (get_current_round db); [| discriminate].
    destruct (negb _); [discriminate |]. now destruct (_ || _).
Qed.

Lemma get_current_round_handle (q : request) (db : DB) :
  get_current_round (snd (handle q db)) = get_current_round db.
Proof.
  unfold get_current_round. now rewrite handle_rounds.
Qed.

Lemma handle_all_cons (q : request) (qs : list request) (db : DB) :
  handle_all (q :: qs) db = handle_all qs (snd (handle q db)).
Proof. reflexivity. Qed.

(** X14. No sequence of requests opens or closes an account: the set of user
    ids with a row in [users] stays the same. *)
Theorem requests_keep_accounts (qs : list request) (db : DB) :
  dom (users (handle_all qs db)) = dom (users db).
Proof.
  revert db. induction qs as [| q qs IH]; intros db; [reflexivity |].
  rewrite handle_all_cons, IH.
  destruct q as [who | bettor amount | now who]; simpl.
  - reflexivity.
  - destruct (place_bet_cases bettor amount db)
      as [(round & _ & _ & _ & _ & ->) | (msg & ->)]; simpl; [| reflexivity].
    apply dom_alter_L.
  - now rewrite cashout_keeps_db.
Qed.

(** X15. No sequence of requests raises a balance: every user's balance
    after it is at most the balance before. *)
Theorem requests_never_credit (qs : list request) (user_id : string) (db : DB) :
  (get_user_balance user_id (handle_all qs db) <= get_user_balance user_id db)%Q.
Proof.
  revert db. induction qs as [| q qs IH]; intros db; [apply Qle_refl |].
  rewrite handle_all_cons. eapply Qle_trans; [apply IH |].
  destruct q as [who | bettor amount | now who]; simpl.
  - apply Qle_refl.
  - destruct (place_bet_cases bettor amount db)
      as [(round & _ & _ & Hpos & Hle & ->) | (msg & ->)]; simpl; [| apply Qle_refl].
    destruct (String.eqb bettor user_id) eqn:E.
    + apply String.eqb_eq in E. subst bettor.
      rewrite (bet_placed_balance user_id amount round db Hpos Hle). lra.
    + apply String.eqb_neq in E.
      rewrite (bet_placed_other_balance bettor user_id amount round db E).
      apply Qle_refl.
  - rewrite cashout_keeps_db. apply Qle_refl.
Qed.

(** X17. Unless the current round is waiting, requests are without effect:
    when there is no current round or it is running, the database after any
    sequence of requests is the database before it. *)
Theorem requests_frozen_outside_waiting (qs : list request) (db : DB) :
  (forall round, get_current_round db = Some round -> r_status round = running) ->
  handle_all qs db = db.
Proof.
  intros Hrun. induction qs as [| q qs IH]; [reflexivity |].
  rewrite handle_all_cons.
  assert (E : snd (handle q db) = db); [| now rewrite E].
  destruct q as [who | bettor amount | now who]; simpl.
  - reflexivity.
  - destruct (place_bet_cases bettor amount db)
      as [(round & Hcur & Hst & _) | (msg & ->)]; [| reflexivity].
    rewrite (Hrun round Hcur) in Hst. discriminate.
  - apply cashout_keeps_db.
Qed.

Lemma requests_frozen_outside_waiting_witness :
  handle_all [req_place_bet "alice" 10; req_cashout 15 "alice";
              req_get_balance "alice"; req_place_bet "alice" 80] db_running
  = db_running /\
  handle_all [req_place_bet "alice" 10; req_cashout 15 "alice"] db_ended = db_ended.
Proof.
  split.
  - apply (requests_frozen_outside_waiting _ db_running).
    intros round H. rewrite db_running_round in H. now inversion H.
  - apply (requests_frozen_outside_waiting _ db_ended).
    intros round H. vm_compute in H. discriminate.
Defined.

(** ** The loop: what a run sends and where it ends *)

Lemma game_loop_step_sent (now u : Q) (pc : loop_pc) (db : DB) :
  forallb is_countdown (sent (game_loop_step now u pc db)) = true.
Proof.
  destruct pc as [| round start_time | round start_time coef | e round start_time coef].
  - now rewrite create_step.
  - simpl. now destruct (Qlt_bool now start_time).
  - simpl. now destruct (Qlt_bool coef (r_crash_point round)).
  - reflexivity.
Qed.

(** X18. Whatever the clock and the draws, from whatever program point, the
    only snapshots [game_loop] ever hands to [broadcast] are waiting
    countdowns: no running coefficient and no final coefficient is sent. *)
Theorem game_loop_sends_only_countdowns (inputs : list (Q * Q)) (pc : loop_pc)
    (db : DB) :
  forallb is_countdown (game_loop_sent inputs pc db) = true.
Proof.
  revert pc db. induction inputs as [| [now u] rest IH]; intros pc db; simpl.
  - reflexivity.
  - rewrite forallb_app, game_loop_step_sent. apply IH.
Qed.

Lemma finished_run (inputs : list (Q * Q)) (e : exn) (round : round_row)
    (start_time coef : Q) (db : DB) :
  game_loop_run inputs (finished e round start_time coef) db
  = (finished e round start_time coef, db).
Proof.
  induction inputs as [| [now u] rest IH]; simpl; [reflexivity | exact IH].
Qed.

Lemma waiting_run (waits : list (Q * Q)) (rest : list (Q * Q)) (round : round_row)
    (start_time : Q) (db : DB) :
  Forall (fun i => (fst i < start_time)%Q) waits ->
  game_loop_run (waits ++ rest) (at_wait round start_time) db
  = game_loop_run rest (at_wait round start_time) db.
Proof.
  induction waits as [| [now u] waits IH]; intros H; simpl; [reflexivity |].
  apply Forall_cons in H as [Hnow H]. simpl in Hnow.
  apply Qlt_bool_iff in Hnow. rewrite Hnow. simpl. now apply IH.
Qed.

(** X19. Every run of [game_loop] that gets as far as the start time ends
    the same way: the round is created, the loop polls while the clock is
    before the start time, marks the round running at the first reading [t]
    at or after it, and the next stretch ends the coroutine with a TypeError,
    with [coef] at 1.01; whatever readings follow, the database stays the one
    with the round running. *)
Theorem game_loop_run_ends_in_flight
    (now u : Q) (waits : list (Q * Q)) (t u1 t2 u2 : Q) (rest : list (Q * Q))
    (db : DB) :
  (1.5 <= u)%Q -> (u <= 5.0)%Q ->
  Forall (fun i => (fst i < now + 5)%Q) waits ->
  (now + 5 <= t)%Q ->
  game_loop_run ((now, u) :: waits ++ (t, u1) :: (t2, u2) :: rest) at_create db
  = (finished TypeError (new_round now u db) t (1.0 + 0.01),
     update_round_status (r_id (new_round now u db)) running
       (create_new_round now u db)).
Proof.
  intros Hlo Hhi Hwaits Ht.
  cbn [game_loop_run]. cbv zeta. rewrite create_step. cbn [next_pc next_db].
  rewrite (waiting_run waits _ _ _ _ Hwaits).
  cbn [game_loop_run]. cbv zeta.
  assert (E : Qlt_bool t (now + 5) = false) by now apply Qlt_bool_false.
  cbn [game_loop_step]. rewrite E. cbn [next_pc next_db].
  rewrite flight_step_raises.
  - cbn [next_pc next_db]. apply finished_run.
  - destruct (py_round_2_bounds u Hlo Hhi) as [H _].
    apply Qlt_le_trans with 1.5%Q; [reflexivity | exact H].
Qed.

Lemma game_loop_run_ends_in_flight_witness :
  game_loop_run
    ((0, 3.0) :: [(0, 3.0); (1, 3.0); (2, 3.0); (3, 3.0); (4, 3.0)]
     ++ (5, 3.0) :: (5, 3.0) :: [(5.05, 3.0); (60, 3.0)])%Q at_create db_funded
  = (finished TypeError (new_round 0 3.0 db_funded) 5 (1.0 + 0.01),
     update_round_status (r_id (new_round 0 3.0 db_funded)) running
       (create_new_round 0 3.0 db_funded)).
Proof.
  apply (game_loop_run_ends_in_flight 0 3.0 _ 5 3.0 5 3.0 _ db_funded).
  - vm_compute. discriminate.
  - vm_compute. discriminate.
  - repeat constructor.
  - vm_compute. discriminate.
Defined.

(** ** The server: the loop and the requests interleaved *)

Lemma server_run_cons (e : event) (es : list event) (st : loop_pc * DB) :
  server_run (e :: es) st = server_run es (server_step st e).
Proof. reflexivity. Qed.

Lemma server_run_started (es : list event) (pc : loop_pc) (db : DB) :
  started pc ->
  started (fst (server_run es (pc, db))) /\
  length (rounds (snd (server_run es (pc, db)))) = length (rounds db) /\
  (forall r, In r (rounds (snd (server_run es (pc, db)))) ->
     r_status r = ended -> In r (rounds db)).
Proof.
  revert pc db. induction es as [| e es IH]; intros pc db Hpc.
  - simpl. auto.
  - rewrite server_run_cons. destruct e as [now u | q]; simpl.
    + destruct (started_step now u pc db Hpc) as (Hpc' & Hlen & Hend).
      destruct (IH _ (next_db (game_loop_step now u pc db)) Hpc') as (Hf & Hlen' & Hend').
      split; [exact Hf |]. split; [congruence | auto].
    + destruct (IH pc (snd (handle q db)) Hpc) as (Hf & Hlen & Hend).
      rewrite handle_rounds in Hlen, Hend. auto.
Qed.

(** X20. However requests are interleaved with the loop, a run of the server
    from its start creates at most one round and never stores the status
    [ended]: every ended row of the table was there before. *)
Theorem server_run_single_round (es : list event) (db : DB) :
  Forall draw_in_range es ->
  (length (rounds (snd (server_run es (at_create, db)))) <= S (length (rounds db)))%nat /\
  (forall r, In r (rounds (snd (server_run es (at_create, db)))) ->
     r_status r = ended -> In r (rounds db)).
Proof.
  revert db. induction es as [| e es IH]; intros db Hes.
  - simpl. split; [lia | auto].
  - apply Forall_cons in Hes as [He Hes]. rewrite server_run_cons.
    destruct e as [now u | q]; cbn [server_step fst snd]; cbv zeta.
    + destruct He as [Hlo Hhi].
      pose proof (create_step_started now u db Hlo Hhi) as Hst.
      destruct (server_run_started es _ (next_db (game_loop_step now u at_create db)) Hst)
        as (_ & Hlen & Hend).
      rewrite create_step in Hlen, Hend |- *. cbn [next_pc next_db] in *.
      cbn [create_new_round rounds] in Hlen, Hend.
      rewrite length_app in Hlen. simpl in Hlen.
      split; [rewrite Hlen; lia |].
      intros r Hr Hended. specialize (Hend r Hr Hended).
      apply in_app_or in Hend as [H | [<- | []]]; [exact H | discriminate].
    + destruct (IH (snd (handle q db)) Hes) as [Hlen Hend].
      rewrite handle_rounds in Hlen, Hend. auto.
Qed.

Lemma server_run_single_round_witness :
  (length (rounds (snd (server_run
     [ev_request (req_place_bet "alice" 20); ev_loop 0 3.0;
      ev_request (req_place_bet "alice" 20); ev_loop 5 3.0;
      ev_request (req_cashout 5 "alice"); ev_loop 5 3.0; ev_loop 9 3.0]%Q
     (at_create, db_funded)))) <= S (length (rounds db_funded)))%nat /\
  rounds (snd (server_run
     [ev_request (req_place_bet "alice" 20); ev_loop 0 3.0;
      ev_request (req_place_bet "alice" 20); ev_loop 5 3.0;
      ev_request (req_cashout 5 "alice"); ev_loop 5 3.0; ev_loop 9 3.0]%Q
     (at_create, db_funded))) = [round_running].
Proof.
  split.
  - apply (server_run_single_round _ db_funded).
    repeat constructor; vm_compute; discriminate.
  - vm_compute. reflexivity.
Defined.

Lemma tracks_rounds (pc : loop_pc) (db db' : DB) :
  rounds db' = rounds db -> tracks pc db -> tracks pc db'.
Proof.
  intros E. destruct pc; simpl; try rewrite E; auto.
Qed.

Lemma row_advanced_rank (r r' : round_row) :
  row_advanced r r' ->
  r_id r' = r_id r /\ r_start_time r' = r_start_time r /\
  r_crash_point r' = r_crash_point r /\
  (status_rank (r_status r) <= status_rank (r_status r'))%nat.
Proof.
  intros (H1 & H2 & H3 & [H | [[Ha Hb] | [Ha Hb]]]); repeat split; auto.
  - rewrite H. lia.
  - rewrite Ha, Hb. simpl. lia.
  - rewrite Ha, Hb. simpl. lia.
Qed.

(** X21. The order of phases is kept however requests are interleaved with
    the loop.  From any state in which the loop's local row matches the table
    (as it does at the loop's entry), every row of the rounds table stays in
    its place with its id, start time and crash point, and its status never
    moves backwards (waiting, then running, then ended). *)
Theorem server_run_keeps_phase_order (es : list event) (pc : loop_pc) (db : DB)
    (i : nat) (r : round_row) :
  tracks pc db ->
  rounds db !! i = Some r ->
  exists r',
    rounds (snd (server_run es (pc, db))) !! i = Some r' /\
    r_id r' = r_id r /\ r_start_time r' = r_start_time r /\
    r_crash_point r' = r_crash_point r /\
    (status_rank (r_status r) <= status_rank (r_status r'))%nat.
Proof.
  revert pc db r. induction es as [| e es IH]; intros pc db r Hpc Hi.
  - exists r. simpl. repeat split; auto.
  - rewrite server_run_cons. destruct e as [now u | q]; simpl.
    + destruct (game_loop_step_advances now u pc db i r Hpc Hi) as (r1 & Hi1 & Hadv).
      apply row_advanced_rank in Hadv as (A1 & A2 & A3 & A4).
      destruct (IH _ _ r1 (tracks_step now u pc db Hpc) Hi1) as (r' & Hi' & B1 & B2 & B3 & B4).
      exists r'. split; [exact Hi' |]. repeat split; try congruence. lia.
    + apply (IH pc (snd (handle q db)) r).
      * exact (tracks_rounds pc db _ (handle_rounds q db) Hpc).
      * now rewrite handle_rounds.
Qed.

Lemma server_run_keeps_phase_order_witness :
  exists r',
    rounds (snd (server_run
      [ev_request (req_place_bet "alice" 20); ev_loop 4 3.0; ev_loop 5 3.0;
       ev_request (req_cashout 6 "alice"); ev_loop 6 3.0]%Q
      (next_pc step_created, db_waiting))) !! 0%nat = Some r' /\
    r_id r' = r_id round_fetched /\ r_start_time r' = r_start_time round_fetched /\
    r_crash_point r' = r_crash_point round_fetched /\
    (status_rank (r_status round_fetched) <= status_rank (r_status r'))%nat.
Proof.
  apply (server_run_keeps_phase_order _ (next_pc step_created) db_waiting 0 round_fetched).
  - intros r [<- | []] _. reflexivity.
  - reflexivity.
Defined.

(** ** Subscribers: websocket_endpoint and broadcast *)

Lemma fold_py_del (l : list nat) (m : gmap nat string) :
  NoDup l ->
  (forall ws, ws ∈ l -> is_Some (m !! ws)) ->
  exists m',
    fold_left
      (fun acc ws => match acc with Some m => py_del ws m | None => None end)
      l (Some m) = Some m' /\
    forall ws, m' !! ws = if decide (ws ∈ l) then None else m !! ws.
Proof.
  revert m. induction l as [| x l IH]; intros m Hnd Hin; simpl.
  - exists m. split; [reflexivity |]. intros ws.
    destruct (decide (ws ∈ [])) as [H | _]; [| reflexivity].
    now apply elem_of_nil in H.
  - apply NoDup_cons in Hnd as [Hx Hnd].
    destruct (Hin x) as [v Hv]; [left |].
    unfold py_del at 2. rewrite Hv.
    destruct (IH (delete x m) Hnd) as (m' & Hfold & Hlook).
    + intros ws Hws. rewrite lookup_delete_ne; [apply Hin; now right |].
      intros ->. contradiction.
    + exists m'. split; [exact Hfold |]. intros ws. rewrite Hlook.
      destruct (decide (ws ∈ l)) as [Hl | Hl].
      * destruct (decide (ws ∈ x :: l)) as [_ | Hn]; [reflexivity |].
        exfalso. apply Hn. now right.
      * destruct (decide (ws = x)) as [-> | Hne].
        -- rewrite lookup_delete_eq.
           destruct (decide (x ∈ x :: l)) as [_ | Hn]; [reflexivity |].
           exfalso. apply Hn. left.
        -- rewrite lookup_delete_ne by congruence.
           destruct (decide (ws ∈ x :: l)) as [Hc | _]; [| reflexivity].
           apply elem_of_cons in Hc as [Hc | Hc]; contradiction.
Qed.

Lemma registry_keys (clients : gmap nat string) (ws : nat) :
  ws ∈ (map_to_list clients).*1 <-> is_Some (clients !! ws).
Proof.
  rewrite list_elem_of_fmap. split.
  - intros ([k v] & -> & H). apply elem_of_map_to_list in H. simpl. eauto.
  - intros [v H]. exists (ws, v). split; [reflexivity |].
    now apply elem_of_map_to_list.
Qed.

(** What one call of [broadcast] returns. *)
Lemma broadcast_result (send : nat -> message -> bool)
    (message : message) (clients : gmap nat string) :
  exists served clients',
    broadcast send message clients = Some (served, clients') /\
    (forall ws, clients' !! ws = if send ws message then clients !! ws else None) /\
    (forall ws, ws ∈ served <-> is_Some (clients' !! ws)).
Proof.
  unfold broadcast.
  set (keys := (map_to_list clients).*1).
  set (to_remove := List.filter (fun ws => negb (send ws message)) keys).
  assert (Hkeys : forall ws, ws ∈ keys <-> is_Some (clients !! ws))
    by apply registry_keys.
  assert (Hrem : forall ws, ws ∈ to_remove <->
                   is_Some (clients !! ws) /\ send ws message = false).
  { intros ws. unfold to_remove.
    rewrite list_elem_of_In, List.filter_In, <- list_elem_of_In, Hkeys.
    now rewrite negb_true_iff. }
  destruct (fold_py_del to_remove clients) as (m' & Hfold & Hlook).
  - apply NoDup_ListNoDup, List.NoDup_filter, NoDup_ListNoDup.
    apply NoDup_fst_map_to_list.
  - intros ws Hws. now apply Hrem in Hws.
  - rewrite Hfold. eexists _, m'. split; [reflexivity |].
    assert (Hm' : forall ws,
              m' !! ws = if send ws message then clients !! ws else None).
    { intros ws. rewrite Hlook.
      destruct (decide (ws ∈ to_remove)) as [H | H].
      - apply Hrem in H as [_ H]. now rewrite H.
      - destruct (send ws message) eqn:E; [reflexivity |].
        destruct (clients !! ws) eqn:Ec; [| reflexivity].
        exfalso. apply H, Hrem. rewrite Ec. eauto. }
    split; [exact Hm' |].
    intros ws. rewrite Hm'.
    rewrite list_elem_of_In, List.filter_In, <- list_elem_of_In, Hkeys.
    destruct (send ws message); split.
    + now intros [H _].
    + auto.
    + intros [_ H]. discriminate.
    + intros [v H]. discriminate.
Qed.

(** X22. [broadcast] never fails on its deletions, and it leaves in the
    registry exactly the clients whose send went through, each with its entry
    unchanged; the clients it served are exactly those.  A client whose send
    failed is gone after the same call. *)
Theorem broadcast_keeps_exactly_served (send : nat -> message -> bool)
    (message : message) (clients : gmap nat string) :
  exists served clients',
    broadcast send message clients = Some (served, clients') /\
    (forall ws, clients' !! ws = if send ws message then clients !! ws else None) /\
    (forall ws, ws ∈ served <-> is_Some (clients' !! ws)).
Proof. apply broadcast_result. Qed.

Lemma broadcast_keeps_exactly_served_witness :
  exists served clients',
    broadcast send_but_2 (msg_waiting 5) clients_three = Some (served, clients') /\
    clients' !! 1%nat = Some "" /\ clients' !! 2%nat = None /\
    clients' !! 3%nat = Some "" /\
    (2%nat ∈ served <-> is_Some (clients' !! 2%nat)).
Proof.
  destruct (broadcast_keeps_exactly_served send_but_2 (msg_waiting 5) clients_three)
    as (served & clients' & E & Hlook & Hserved).
  exists served, clients'. split; [exact E |].
  split; [rewrite Hlook; reflexivity |].
  split; [rewrite Hlook; reflexivity |].
  split; [rewrite Hlook; reflexivity |].
  apply Hserved.
Defined.

(** X23. A broadcast never adds a client, and repeating it with the same
    sends going through removes nobody further: the registry after the first
    call is a fixed point. *)
Theorem broadcast_settles (send : nat -> message -> bool) (message : message)
    (clients : gmap nat string) :
  exists served clients',
    broadcast send message clients = Some (served, clients') /\
    dom clients' ⊆ dom clients /\
    exists served', broadcast send message clients' = Some (served', clients').
Proof.
  destruct (broadcast_result send message clients)
    as (served & clients' & E & Hlook & _).
  destruct (broadcast_result send message clients')
    as (served' & clients'' & E' & Hlook' & _).
  exists served, clients'. split; [exact E |]. split.
  - intros ws Hws. apply elem_of_dom in Hws. apply elem_of_dom.
    rewrite Hlook in Hws. destruct (send ws message); [exact Hws |].
    now destruct Hws.
  - exists served'. rewrite E'. do 2 f_equal. apply map_eq. intros ws.
    rewrite Hlook', Hlook. now destruct (send ws message).
Qed.

(** X24. A client that [websocket_endpoint] has just registered is kept by
    the next broadcast exactly when the send to it goes through, and then
    with the empty string it was registered with. *)
Theorem accepted_client_after_broadcast (send : nat -> message -> bool)
    (message : message) (ws : nat) (clients : gmap nat string) :
  exists served clients',
    broadcast send message (websocket_accept ws clients) = Some (served, clients') /\
    clients' !! ws = (if send ws message then Some "" else None) /\
    (ws ∈ served <-> send ws message = true).
Proof.
  destruct (broadcast_result send message (websocket_accept ws clients))
    as (served & clients' & E & Hlook & Hserved).
  exists served, clients'. split; [exact E |].
  assert (H : clients' !! ws = (if send ws message then Some "" else None)).
  { rewrite Hlook. unfold websocket_accept. now rewrite lookup_insert_eq. }
  split; [exact H |]. rewrite Hserved, H.
  destruct (send ws message); split.
  - reflexivity.
  - eauto.
  - intros [v Hv]. discriminate.
  - discriminate.
Qed.

Lemma accepted_client_after_broadcast_witness :
  exists served clients',
    broadcast send_but_2 (msg_waiting 5) (websocket_accept 2 clients_three)
    = Some (served, clients') /\
    clients' !! 2%nat = None /\
    (2%nat ∈ served <-> send_but_2 2 (msg_waiting 5) = true).
Proof.
  apply (accepted_client_after_broadcast send_but_2 (msg_waiting 5) 2 clients_three).
Defined.

(** ** Requests with amounts and cells that are not numbers *)

(** X3. A user whose row holds NULL is locked out: [get_balance] raises a
    TypeError, and while a round waits every [place_bet] of that user with an
    amount that is not [<= 0] raises a TypeError too; neither call changes
    the database. *)
Theorem null_balance_blocks_account (user_id : string) (db : Nullable.DB) :
  Nullable.users db !! user_id = Some None ->
  Nullable.get_balance user_id db = (Raise TypeError, db) /\
  forall amount round,
    Nullable.get_current_round db = Some round -> r_status round = waiting ->
    Nullable.le_zero amount = false ->
    Nullable.place_bet user_id amount db = (Raise TypeError, db).
Proof.
  intros Hrow.
  assert (E : Nullable.get_user_balance user_id db = None).
  { unfold Nullable.get_user_balance. now rewrite Hrow. }
  split.
  - unfold Nullable.get_balance. now rewrite E.
  - intros amount round Hcur Hst Hle. unfold Nullable.place_bet.
    now rewrite Hcur, Hst, E, Hle.
Qed.

Lemma null_balance_blocks_account_witness :
  Nullable.get_balance "alice" db_waiting_nan = (Raise TypeError, db_waiting_nan) /\
  Nullable.place_bet "alice" (Nullable.finite 1) db_waiting_nan
  = (Raise TypeError, db_waiting_nan).
Proof.
  destruct (null_balance_blocks_account "alice" db_waiting_nan) as [H1 H2].
  - vm_compute. reflexivity.
  - split; [exact H1 |].
    apply (H2 (Nullable.finite 1) round_fetched); vm_compute; reflexivity.
Defined.



(** X12. For a user without a row in [users], [place_bet] with any amount
    other than NaN answers with an error and changes nothing; with NaN, while
    a round waits, it answers with success and appends a bet row with a NULL
    amount, leaving [users] without a row for that user. *)
Theorem unknown_user_bets_only_nan (user_id : string) (db : Nullable.DB) :
  Nullable.users db !! user_id = None ->
  (forall amount, amount <> Nullable.nan ->
     exists msg,
       Nullable.place_bet user_id amount db = (Return (resp_error msg), db)) /\
  (forall round,
     Nullable.get_current_round db = Some round -> r_status round = waiting ->
     exists db',
       Nullable.place_bet user_id Nullable.nan db = (Return resp_success, db') /\
       Nullable.users db' = Nullable.users db /\
       Nullable.bets db'
       = (Nullable.bets db ++
            [{| Nullable.b_user_id := user_id; Nullable.b_amount := None;
                Nullable.b_round_id := r_id round;
                Nullable.b_cashed_out := false;
                Nullable.b_coefficient := 1.0%Q |}])%list).
Proof.
  intros Hrow.
  assert (E : Nullable.get_user_balance user_id db = Some 0.0%Q).
  { unfold Nullable.get_user_balance. now rewrite Hrow. }
  split.
  - intros amount Hnan.
    destruct (nullable_place_bet_cases user_id amount db)
      as [(round & bal & _ & _ & Hbal & H1 & H2 & _) | [H | H]].
    + exfalso. rewrite E in Hbal. injection Hbal as <-.
      destruct (proj1 (passes_line_121 amount 0.0%Q) (conj H1 H2))
        as [H | (q & _ & Hpos & Hle)]; [contradiction |].
      apply (Qlt_irrefl 0). apply Qlt_le_trans with q; [exact Hpos |].
      apply Qle_trans with 0.0%Q; [exact Hle | discriminate].
    + exact H.
    + exfalso. revert H. unfold Nullable.place_bet.
      destruct (Nullable.get_current_round db); [| discriminate].
      destruct (negb _); [discriminate |]. rewrite E.
      destruct (Nullable.le_zero amount); [discriminate |].
      now destruct (Nullable.gt amount 0.0).
  - intros round Hcur Hst. unfold Nullable.place_bet.
    rewrite Hcur, Hst, E. simpl. eexists. split; [reflexivity |].
    split; [| reflexivity]. simpl. apply map_eq. intros other.
    rewrite lookup_alter. destruct (decide (user_id = other)) as [<- |]; [| reflexivity].
    now rewrite Hrow.
Qed.

Lemma unknown_user_bets_only_nan_witness :
  (exists msg,
     Nullable.place_bet "bob" (Nullable.finite 1) (lift db_waiting)
     = (Return (resp_error msg), lift db_waiting)) /\
  exists db',
    Nullable.place_bet "bob" Nullable.nan (lift db_waiting)
    = (Return resp_success, db') /\
    Nullable.users db' = Nullable.users (lift db_waiting) /\
    Nullable.bets db'
    = (Nullable.bets (lift db_waiting) ++
         [{| Nullable.b_user_id := "bob"; Nullable.b_amount := None;
             Nullable.b_round_id := r_id round_fetched;
             Nullable.b_cashed_out := false;
             Nullable.b_coefficient := 1.0%Q |}])%list.
Proof.
  destruct (unknown_user_bets_only_nan "bob" (lift db_waiting)) as [H1 H2].
  - vm_compute. reflexivity.
  - split.
    + apply (H1 (Nullable.finite 1)). discriminate.
    + apply (H2 round_fetched); [exact db_waiting_round | reflexivity].
Defined.

Lemma nullable_handle_rounds (q : Nullable.request) (db : Nullable.DB) :
  Nullable.rounds (snd (Nullable.handle q db)) = Nullable.rounds db.
Proof.
  destruct q as [who | bettor amount | now who]; simpl.
  - now rewrite nullable_get_balance_keeps_db.
  - destruct (nullable_place_bet_cases bettor amount db)
      as [(round & bal & _ & _ & _ & _ & _ & ->) | [(msg & ->) | ->]]; reflexivity.
  - now rewrite nullable_cashout_keeps_db.
Qed.

(** X16. Bets are only ever appended: after any sequence of requests the
    bets table is the old table followed by at most one new row per request;
    each new row is not cashed out, belongs to the round that was current,
    and waiting, all along, and its amount is a positive number or NULL. *)
Theorem requests_append_fresh_bets (qs : list Nullable.request) (db : Nullable.DB) :
  exists new,
    Nullable.bets (Nullable.handle_all qs db) = (Nullable.bets db ++ new)%list /\
    (length new <= length qs)%nat /\
    Forall (fun b =>
              exists round,
                Nullable.get_current_round db = Some round /\
                r_status round = waiting /\ Nullable.fresh_bet round b) new.
Proof.
  revert db. induction qs as [| q qs IH]; intros db.
  - exists []. simpl. rewrite app_nil_r. split; [reflexivity |]. split; [lia | constructor].
  - change (Nullable.handle_all (q :: qs) db)
      with (Nullable.handle_all qs (snd (Nullable.handle q db))).
    destruct (IH (snd (Nullable.handle q db))) as (new & Hb & Hlen & Hall).
    assert (Hcur : Nullable.get_current_round (snd (Nullable.handle q db))
                   = Nullable.get_current_round db).
    { unfold Nullable.get_current_round. now rewrite nullable_handle_rounds. }
    rewrite Hcur in Hall. clear Hcur.
    destruct q as [who | bettor amount | now who]; simpl in *.
    + rewrite nullable_get_balance_keeps_db in Hb |- *. exists new.
      split; [exact Hb |]. split; [lia | exact Hall].
    + destruct (nullable_place_bet_cases bettor amount db)
        as [(round & bal & Hcur & Hst & _ & H1 & H2 & E) | [(msg & E) | E]];
        rewrite E in Hb |- *; simpl in Hb |- *.
      * eexists (_ :: new). rewrite <- app_assoc in Hb. split; [exact Hb |].
        split; [simpl; lia |]. constructor; [| exact Hall].
        exists round. split; [exact Hcur |]. split; [exact Hst |].
        unfold Nullable.fresh_bet. simpl. split; [reflexivity |].
        split; [reflexivity |].
        destruct (proj1 (passes_line_121 amount bal) (conj H1 H2))
          as [-> | (q & -> & Hpos & _)]; simpl; eauto.
      * exists new. split; [exact Hb |]. split; [lia | exact Hall].
      * exists new. split; [exact Hb |]. split; [lia | exact Hall].
    + rewrite nullable_cashout_keeps_db in Hb |- *. exists new.
      split; [exact Hb |]. split; [lia | exact Hall].
Qed.
